(** * go-diameter: AVP data types and the Device-Watchdog handler

    A shallow embedding of [base/types.go] (the AVP value codecs) and of
    [handleDWR] (the watchdog handler of the peer state machine), with the
    properties of their specification.

    Conventions of the embedding:
    - a Go [uint32] is a [Z] reduced modulo [2^32] at every operation that
      can wrap; [len] is Go's [len], an [int];
    - a Go [string] and a [[]byte] whose nil-ness is never tested are
      [list byte]; a slice that the code compares with [nil] is an
      [option (list byte)], [None] being [nil];
    - a method with a pointer receiver takes the receiver's state and
      returns the new state next to its result. *)

From Stdlib Require Import ZArith List Lia Bool.
From coqutil Require Import Byte.
From coqutil Require Import Z.bitblast.
Import ListNotations.
Local Open Scope Z_scope.

(** ** Machine integers and builtins *)

Definition uint32 (z : Z) : Z := z mod 2 ^ 32.
Definition uint64 (z : Z) : Z := z mod 2 ^ 64.

(** Conversion of an unsigned pattern to the signed type of the same
    width (two's complement). *)
Definition int32 (z : Z) : Z :=
  let u := uint32 z in if u <? 2 ^ 31 then u else u - 2 ^ 32.
Definition int64 (z : Z) : Z :=
  let u := uint64 z in if u <? 2 ^ 63 then u else u - 2 ^ 64.

Definition len {A : Type} (l : list A) : Z := Z.of_nat (length l).

(** [make([]byte, n)]: [n] zero octets. *)
Definition make (n : Z) : list byte := repeat Byte.x00 (Z.to_nat n).

(** [copy(dst, src)]: the first [min(len(dst), len(src))] elements of
    [dst] are overwritten by those of [src]. *)
Definition copy (dst src : list byte) : list byte :=
  firstn (length dst) src ++ skipn (length src) dst.

(** Modelled from the spec: [pad4] is called by [OctetString.Put] and
    [OctetString.updatePadding] but declared in a file that is not part of
    the sources at hand; the specification gives it as
    [pad_to_4(n) = ((n + 3) / 4) * 4] under integer division. *)
Definition pad4 (n : Z) : Z := ((n + 3) / 4) * 4.

(** ** The octet-string family *)

Module OctetString.

Record t : Type := mk { Value : list byte; Padding : Z }.

(** The zero value of the struct, what [new(OctetString)] yields. *)
Definition zero : t := mk [] 0.

Definition Data (os : t) : list byte := Value os.

Definition Put (os : t) (b : list byte) : t :=
  let l := uint32 (len b) in
  let os := mk (Value os) (uint32 (pad4 l - l)) in
  mk b (Padding os).

Definition updatePadding (os : t) : t :=
  if Padding os =? 0 then
    let l := uint32 (len (Value os)) in
    mk (Value os) (uint32 (pad4 l - l))
  else os.

Definition Bytes (os : t) : list byte * t :=
  let os := updatePadding os in
  let l := uint32 (len (Value os)) in
  let b := make (uint32 (l + Padding os)) in
  (copy b (Value os), os).

Definition Length (os : t) : Z :=
  uint32 (uint32 (len (Value os)) - Padding os).

(** The [Padding] field is what the value needs to reach a multiple of
    four octets. *)
Definition padding_consistent (os : t) : Prop :=
  0 <= Padding os <= 3 /\ (len (Value os) + Padding os) mod 4 = 0.

End OctetString.

(** [UTF8String], [DiameterIdentity] and [IPFilterRule] embed an
    [OctetString]; [Put], [Bytes] and [Length] are the promoted methods of
    the embedded field. *)

Module UTF8String.
Record t : Type := mk { base : OctetString.t }.
Definition zero : t := mk OctetString.zero.
Definition Value (p : t) : list byte := OctetString.Value (base p).
Definition Padding (p : t) : Z := OctetString.Padding (base p).
Definition Put (p : t) (b : list byte) : t := mk (OctetString.Put (base p) b).
Definition Bytes (p : t) : list byte * t :=
  let (b, os) := OctetString.Bytes (base p) in (b, mk os).
Definition Length (p : t) : Z := OctetString.Length (base p).
End UTF8String.

Module DiameterIdentity.
Record t : Type := mk { base : OctetString.t }.
Definition zero : t := mk OctetString.zero.
Definition Value (p : t) : list byte := OctetString.Value (base p).
Definition Padding (p : t) : Z := OctetString.Padding (base p).
Definition Put (p : t) (b : list byte) : t := mk (OctetString.Put (base p) b).
Definition Bytes (p : t) : list byte * t :=
  let (b, os) := OctetString.Bytes (base p) in (b, mk os).
Definition Length (p : t) : Z := OctetString.Length (base p).
End DiameterIdentity.

Module IPFilterRule.
Record t : Type := mk { base : OctetString.t }.
Definition zero : t := mk OctetString.zero.
Definition Value (p : t) : list byte := OctetString.Value (base p).
Definition Padding (p : t) : Z := OctetString.Padding (base p).
Definition Put (p : t) (b : list byte) : t := mk (OctetString.Put (base p) b).
Definition Bytes (p : t) : list byte * t :=
  let (b, os) := OctetString.Bytes (base p) in (b, mk os).
Definition Length (p : t) : Z := OctetString.Length (base p).
End IPFilterRule.

(** The part of the [Codec] interface shared by the octet-string family:
    a value with a [Value] string and a [Padding] count that can be
    decoded from octets and encoded to octets. *)
Class PaddedCodec (T : Type) : Type := {
  pc_zero : T;
  pc_Value : T -> list byte;
  pc_Padding : T -> Z;
  pc_Put : T -> list byte -> T;
  pc_Bytes : T -> list byte * T;
  pc_Length : T -> Z
}.

#[export] Instance OctetString_codec : PaddedCodec OctetString.t :=
  {| pc_zero := OctetString.zero;
     pc_Value := OctetString.Value;
     pc_Padding := OctetString.Padding;
     pc_Put := OctetString.Put;
     pc_Bytes := OctetString.Bytes;
     pc_Length := OctetString.Length |}.

#[export] Instance UTF8String_codec : PaddedCodec UTF8String.t :=
  {| pc_zero := UTF8String.zero;
     pc_Value := UTF8String.Value;
     pc_Padding := UTF8String.Padding;
     pc_Put := UTF8String.Put;
     pc_Bytes := UTF8String.Bytes;
     pc_Length := UTF8String.Length |}.

#[export] Instance DiameterIdentity_codec : PaddedCodec DiameterIdentity.t :=
  {| pc_zero := DiameterIdentity.zero;
     pc_Value := DiameterIdentity.Value;
     pc_Padding := DiameterIdentity.Padding;
     pc_Put := DiameterIdentity.Put;
     pc_Bytes := DiameterIdentity.Bytes;
     pc_Length := DiameterIdentity.Length |}.

#[export] Instance IPFilterRule_codec : PaddedCodec IPFilterRule.t :=
  {| pc_zero := IPFilterRule.zero;
     pc_Value := IPFilterRule.Value;
     pc_Padding := IPFilterRule.Padding;
     pc_Put := IPFilterRule.Put;
     pc_Bytes := IPFilterRule.Bytes;
     pc_Length := IPFilterRule.Length |}.

(** The padding [Bytes] works with on value [v]: the [Padding] field once
    the call has returned. *)
Definition wire_padding {T : Type} `{PaddedCodec T} (v : T) : Z :=
  pc_Padding (snd (pc_Bytes v)).

(** The [Padding] field holds a [uint32] and the wire size of [v], value
    plus padding, does not wrap around in [uint32] arithmetic. *)
Definition fits_uint32 {T : Type} `{PaddedCodec T} (v : T) : Prop :=
  0 <= pc_Padding v /\ len (pc_Value v) + wire_padding v < 2 ^ 32.

(** Encoding [v] and decoding the octets into a fresh value: the octets
    are the value followed by zero padding, and the fresh value holds all
    of them, the original value only when there is no padding. *)
Definition decode_keeps_padding {T : Type} `{PaddedCodec T} (v : T) : Prop :=
  let w := fst (pc_Bytes v) in
  let u := pc_Put pc_zero w in
  w = pc_Value v ++ repeat Byte.x00 (Z.to_nat (wire_padding v)) /\
  pc_Value u = pc_Value v ++ repeat Byte.x00 (Z.to_nat (wire_padding v)) /\
  (pc_Value u = pc_Value v <-> wire_padding v = 0).

(** ** Fixed-width numeric types *)

(** The part of [encoding/binary] and [math] the numeric codecs call. *)
Module binary.

(** [BigEndian.Uint32(b)]; the callers pass exactly four octets. *)
Definition Uint32 (b : list byte) : Z :=
  let o i := byte.unsigned (nth i b Byte.x00) in
  Z.lor (Z.lor (Z.lor (o 3%nat) (Z.shiftl (o 2%nat) 8))
               (Z.shiftl (o 1%nat) 16))
        (Z.shiftl (o 0%nat) 24).

(** [BigEndian.PutUint32(b, v)] on a fresh four-octet slice. *)
Definition PutUint32 (v : Z) : list byte :=
  [ byte.of_Z (Z.shiftr v 24); byte.of_Z (Z.shiftr v 16);
    byte.of_Z (Z.shiftr v 8); byte.of_Z v ].

(** [BigEndian.Uint64(b)]; the callers pass exactly eight octets. *)
Definition Uint64 (b : list byte) : Z :=
  let o i := byte.unsigned (nth i b Byte.x00) in
  Z.lor (Z.lor (Z.lor (Z.lor (Z.lor (Z.lor (Z.lor
    (o 7%nat)
    (Z.shiftl (o 6%nat) 8))
    (Z.shiftl (o 5%nat) 16))
    (Z.shiftl (o 4%nat) 24))
    (Z.shiftl (o 3%nat) 32))
    (Z.shiftl (o 2%nat) 40))
    (Z.shiftl (o 1%nat) 48))
    (Z.shiftl (o 0%nat) 56).

(** [BigEndian.PutUint64(b, v)] on a fresh eight-octet slice. *)
Definition PutUint64 (v : Z) : list byte :=
  [ byte.of_Z (Z.shiftr v 56); byte.of_Z (Z.shiftr v 48);
    byte.of_Z (Z.shiftr v 40); byte.of_Z (Z.shiftr v 32);
    byte.of_Z (Z.shiftr v 24); byte.of_Z (Z.shiftr v 16);
    byte.of_Z (Z.shiftr v 8); byte.of_Z v ].

(** [io.ReadFull] of [n] octets from [bytes.NewBuffer(buf)], the first
    step of [binary.Read]: short input is an error ([None]) and nothing
    is stored through the destination pointer. *)
Definition ReadFull (n : nat) (buf : list byte) : option (list byte) :=
  if (length buf <? n)%nat then None else Some (firstn n buf).

End binary.

(** A [float32] or [float64] datum is represented by its IEEE-754 bit
    pattern: [math.Float32bits] and [math.Float32frombits] (and the 64-bit
    pair) are the two directions of that representation. *)
Module math.
Definition Float32bits (f : Z) : Z := uint32 f.
Definition Float32frombits (b : Z) : Z := uint32 b.
Definition Float64bits (f : Z) : Z := uint64 f.
Definition Float64frombits (b : Z) : Z := uint64 b.
End math.

(** The six numeric types have the same fields and the same three method
    bodies; they differ in the Go type of [Value], which selects the width
    and the conversion inside [binary.Read] and [binary.Write]. *)
Module Numeric.

Inductive kind : Type :=
| KInteger32 | KInteger64 | KUnsigned32 | KUnsigned64 | KFloat32 | KFloat64.

Record t : Type := mk { Value : Z; Buffer : option (list byte) }.

Definition zero : t := mk 0 None.

(** Octets of a slice, [nil] having none. *)
Definition octets (s : option (list byte)) : list byte :=
  match s with Some b => b | None => [] end.

(** Number of octets [binary.Read] consumes for a [Value] of this type. *)
Definition size (k : kind) : nat :=
  match k with
  | KInteger32 | KUnsigned32 | KFloat32 => 4%nat
  | KInteger64 | KUnsigned64 | KFloat64 => 8%nat
  end.

(** What [binary.Read] stores into [&n.Value] from [size k] octets. *)
Definition decode (k : kind) (bs : list byte) : Z :=
  match k with
  | KInteger32 => int32 (binary.Uint32 bs)
  | KInteger64 => int64 (binary.Uint64 bs)
  | KUnsigned32 => binary.Uint32 bs
  | KUnsigned64 => binary.Uint64 bs
  | KFloat32 => math.Float32frombits (binary.Uint32 bs)
  | KFloat64 => math.Float64frombits (binary.Uint64 bs)
  end.

(** What [binary.Write] emits for [n.Value]. *)
Definition encode (k : kind) (v : Z) : list byte :=
  match k with
  | KInteger32 | KUnsigned32 => binary.PutUint32 (uint32 v)
  | KInteger64 | KUnsigned64 => binary.PutUint64 (uint64 v)
  | KFloat32 => binary.PutUint32 (math.Float32bits v)
  | KFloat64 => binary.PutUint64 (math.Float64bits v)
  end.

(** The values of the Go type of [Value]. *)
Definition representable (k : kind) (v : Z) : Prop :=
  match k with
  | KInteger32 => - 2 ^ 31 <= v < 2 ^ 31
  | KInteger64 => - 2 ^ 63 <= v < 2 ^ 63
  | KUnsigned32 | KFloat32 => 0 <= v < 2 ^ 32
  | KUnsigned64 | KFloat64 => 0 <= v < 2 ^ 64
  end.

Definition Data (n : t) : Z := Value n.

Definition Put (k : kind) (n : t) (d : option (list byte)) : t :=
  let n := mk (Value n) d in
  match binary.ReadFull (size k) (octets (Buffer n)) with
  | Some bs => mk (decode k bs) (Buffer n)
  | None => n
  end.

Definition Bytes (k : kind) (n : t) : list byte * t :=
  let b := encode k (Value n) in
  let n := mk (Value n) (Some b) in
  (octets (Buffer n), n).

Definition Length (k : kind) (n : t) : Z * t :=
  let n := match Buffer n with
           | None => snd (Bytes k n)
           | Some _ => n
           end in
  (uint32 (len (octets (Buffer n))), n).

(** The cached octets are absent or as many as the type is wide. *)
Definition cache_ok (k : kind) (n : t) : Prop :=
  match Buffer n with
  | None => True
  | Some b => length b = size k
  end.

(** The cached octets are absent or the encoding of the current value. *)
Definition cache_coherent (k : kind) (n : t) : Prop :=
  match Buffer n with
  | None => True
  | Some b => b = encode k (Value n)
  end.

(** A call made on a numeric value, and the state after a sequence of
    calls. *)
Inductive op : Type :=
| OpPut (d : option (list byte))
| OpBytes
| OpLength.

Definition step (k : kind) (n : t) (o : op) : t :=
  match o with
  | OpPut d => Put k n d
  | OpBytes => snd (Bytes k n)
  | OpLength => snd (Length k n)
  end.

Definition run (k : kind) (ops : list op) (n : t) : t :=
  fold_left (step k) ops n.

(** A [Put] whose argument is [nil] or has exactly the width of the
    type. *)
Definition exact_width (k : kind) (o : op) : Prop :=
  match o with
  | OpPut (Some b) => length b = size k
  | _ => True
  end.

End Numeric.

Module Integer32.
Definition t := Numeric.t.
Definition Put := Numeric.Put Numeric.KInteger32.
Definition Bytes := Numeric.Bytes Numeric.KInteger32.
Definition Length := Numeric.Length Numeric.KInteger32.
End Integer32.

Module Integer64.
Definition t := Numeric.t.
Definition Put := Numeric.Put Numeric.KInteger64.
Definition Bytes := Numeric.Bytes Numeric.KInteger64.
Definition Length := Numeric.Length Numeric.KInteger64.
End Integer64.

Module Unsigned32.
Definition t := Numeric.t.
Definition Put := Numeric.Put Numeric.KUnsigned32.
Definition Bytes := Numeric.Bytes Numeric.KUnsigned32.
Definition Length := Numeric.Length Numeric.KUnsigned32.
End Unsigned32.

Module Unsigned64.
Definition t := Numeric.t.
Definition Put := Numeric.Put Numeric.KUnsigned64.
Definition Bytes := Numeric.Bytes Numeric.KUnsigned64.
Definition Length := Numeric.Length Numeric.KUnsigned64.
End Unsigned64.

Module Float32.
Definition t := Numeric.t.
Definition Put := Numeric.Put Numeric.KFloat32.
Definition Bytes := Numeric.Bytes Numeric.KFloat32.
Definition Length := Numeric.Length Numeric.KFloat32.
End Float32.

Module Float64.
Definition t := Numeric.t.
Definition Put := Numeric.Put Numeric.KFloat64.
Definition Bytes := Numeric.Bytes Numeric.KFloat64.
Definition Length := Numeric.Length Numeric.KFloat64.
End Float64.

(** ** Address *)

(** The part of package [net] that [Address] calls. An [IP] is a byte
    slice; [nil] is [None]. *)
Module net.

Definition IP : Type := option (list byte).

Definition v4InV6Prefix : list byte :=
  [ Byte.x00; Byte.x00; Byte.x00; Byte.x00; Byte.x00; Byte.x00;
    Byte.x00; Byte.x00; Byte.x00; Byte.x00; Byte.xff; Byte.xff ].

(** [net.IPv4(a, b, c, d)]: the 16-octet form of the address. *)
Definition IPv4 (a b c d : byte) : IP := Some (v4InV6Prefix ++ [a; b; c; d]).

(** [ip.To4()]: a 4-octet [ip] as it is, the last four octets of a
    16-octet [ip] that starts with ten zero octets and two [0xff], [nil]
    for anything else. *)
Definition To4 (ip : IP) : IP :=
  match ip with
  | None => None
  | Some l =>
      if (length l =? 4)%nat then Some l
      else if (length l =? 16)%nat
              && forallb (Byte.eqb Byte.x00) (firstn 10 l)
              && Byte.eqb (nth 10 l Byte.x00) Byte.xff
              && Byte.eqb (nth 11 l Byte.x00) Byte.xff
           then Some (firstn 4 (skipn 12 l))
           else None
  end.

End net.

Module Address.

Record t : Type := mk {
  Family : option (list byte);
  IP : net.IP;
  Padding : Z
}.

Definition zero : t := mk None None 0.

Definition Data (addr : t) : net.IP := IP addr.

(** The guard of [Put]: [len(b) >= 6 && b[1] == 1]; the index is only
    evaluated when the length test has passed. *)
Definition accepts (b : list byte) : bool :=
  (6 <=? len b) && Byte.eqb (nth 1 b Byte.x00) Byte.x01.

Definition Put (addr : t) (b : list byte) : t :=
  let o i := nth i b Byte.x00 in
  if accepts b then
    let addr := mk (Some [o 0%nat; o 1%nat]) (IP addr) (Padding addr) in
    let addr := mk (Family addr)
                   (net.IPv4 (o 2%nat) (o 3%nat) (o 4%nat) (o 5%nat))
                   (Padding addr) in
    mk (Family addr) (IP addr) 2
  else addr.

(** A caller of [Put], which is declared without result parameters, can
    inspect only the receiver afterwards. It can tell that input [b] was
    rejected only if the receiver differs from what every accepted input
    would have left there. *)
Definition rejection_visible (addr : t) (b : list byte) : Prop :=
  forall good, accepts good = true -> Put addr b <> Put addr good.

(** [Bytes] indexes [addr.Family] without testing its length: the result
    is [None] when the call panics with an index out of range. *)
Definition Bytes (addr : t) : option (list byte * t) :=
  match net.To4 (IP addr) with
  | Some ip =>
      let addr := match Family addr with
                  | None => mk (Some [Byte.x00; Byte.x01]) (IP addr) (Padding addr)
                  | Some _ => addr
                  end in
      let addr := mk (Family addr) (IP addr) 2 in
      let fam := Numeric.octets (Family addr) in
      match nth_error fam 0, nth_error fam 1,
            nth_error ip 0, nth_error ip 1, nth_error ip 2, nth_error ip 3 with
      | Some f0, Some f1, Some i0, Some i1, Some i2, Some i3 =>
          Some ([f0; f1; i0; i1; i2; i3; Byte.x00; Byte.x00], addr)
      | _, _, _, _, _, _ => None
      end
  | None => Some ([], addr)
  end.

Definition Length (addr : t) : Z :=
  match net.To4 (IP addr) with
  | Some _ => 6
  | None => 0
  end.

End Address.

(** ** Plain IPv4 *)

Module IPv4.

Record t : Type := mk { IP : net.IP }.

Definition zero : t := mk None.

Definition Data (addr : t) : net.IP := IP addr.

Definition Put (addr : t) (b : list byte) : t :=
  let o i := nth i b Byte.x00 in
  if len b =? 4 then
    mk (net.IPv4 (o 0%nat) (o 1%nat) (o 2%nat) (o 3%nat))
  else addr.

Definition Bytes (addr : t) : list byte :=
  match net.To4 (IP addr) with
  | Some ip => ip
  | None => []
  end.

Definition Length (addr : t) : Z :=
  match net.To4 (IP addr) with
  | Some _ => 4
  | None => 0
  end.

End IPv4.

(** ** Time *)

(** The part of package [time] that [Time] calls. Of a [time.Time] the
    codec observes the seconds since the Unix epoch only; the model keeps
    them with the nanoseconds within the second. *)
Module time.

Record Time : Type := mkTime { sec : Z; nsec : Z }.

(** [time.Unix(sec, nsec)], which brings [nsec] into [0, 1e9). *)
Definition Unix (s ns : Z) : Time :=
  mkTime (s + ns / 1000000000) (ns mod 1000000000).

(** [t.Unix()]. *)
Definition Time_Unix (t : Time) : Z := sec t.

End time.

Module Time.

Record t : Type := mk { Value : time.Time }.

Definition Data (x : t) : time.Time := Value x.

Definition Put (x : t) (b : list byte) : t :=
  if len b =? 4 then mk (time.Unix (binary.Uint32 b) 0) else x.

Definition Bytes (x : t) : list byte :=
  binary.PutUint32 (uint32 (time.Time_Unix (Value x))).

Definition Length (x : t) : Z := 4.

End Time.

(** ** The Device-Watchdog handler *)

Module sm.

Section Handler.

(** The handler's collaborators live in packages [diam], [avp],
    [datatype] and [smparser], none of which is among the sources at
    hand: their types, constants and the two operations whose outcome
    the handler branches on are parameters. *)
Context {Conn error Datum : Type}.
(** [diam.Success]; [avp.OriginHost], [avp.OriginRealm],
    [avp.OriginStateID]; [avp.Mbit]. *)
Variables Success OriginHost OriginRealm OriginStateID Mbit : Z.
(** The conversion [datatype.Unsigned32(x)] of an unsigned 32-bit
    number to AVP data. *)
Variable Unsigned32 : Z -> Datum.

Record AVP : Type := mkAVP {
  Code : Z; Flags : Z; VendorID : Z; Data : Datum
}.

(** Modelled from the spec: [diam.Message] is "a parsed message
    abstraction" whose answers are "pre-populated with a mirrored
    session/hop identifier and a settable result code"; the AVPs
    added with [NewAVP] follow in the order of the calls. *)
Record Message : Type := mkMessage {
  Request : bool;
  HopByHopID : Z;
  EndToEndID : Z;
  ResultCode : option Z;
  AVPs : list AVP
}.

(** Modelled from the spec: [m.Answer(resultCode)]. *)
Definition Answer (m : Message) (resultCode : Z) : Message :=
  mkMessage false (HopByHopID m) (EndToEndID m) (Some resultCode) [].

(** Modelled from the spec: [a.NewAVP(code, flags, vendor, data)];
    the handler drops its results. *)
Definition NewAVP (a : Message) (code flags vendor : Z) (data : Datum)
  : Message :=
  mkMessage (Request a) (HopByHopID a) (EndToEndID a) (ResultCode a)
            (AVPs a ++ [mkAVP code flags vendor data]).

(** [dwr.Parse(m)] of [smparser]: [nil] ([None]) when the mandatory
    Origin-Host, Origin-Realm and Origin-State-Id are present and
    well-formed, the parse failure otherwise. *)
Variable Parse : Message -> option error.

(** What writing message [a] on connection [c] returns as its error. *)
Variable write_error : Conn -> Message -> option error.

Record ErrorReport : Type := mkErrorReport {
  ErrConn : Conn; ErrMessage : Message; Error : error
}.

Record Config : Type := mkConfig {
  cfgOriginHost : Datum; cfgOriginRealm : Datum
}.

Record StateMachine : Type := mkStateMachine { cfg : Config }.

(** What a handler can do to its surroundings: write a message on a
    connection, hand a report to the error sink, close a
    connection. *)
Inductive Event : Type :=
| EvWrite (c : Conn) (a : Message)
| EvReport (r : ErrorReport)
| EvClose (c : Conn).

(** The surroundings: the wall clock in seconds since the epoch
    ([time.Now().Unix()]) and the events so far, oldest first. *)
Record World : Type := mkWorld { clock : Z; trace : list Event }.

Definition M (A : Type) : Type := World -> A * World.

Definition ret {A : Type} (a : A) : M A := fun w => (a, w).

Definition bind {A B : Type} (c : M A) (k : A -> M B) : M B :=
  fun w => let (a, w') := c w in k a w'.

Definition emit (e : Event) : M unit :=
  fun w => (tt, mkWorld (clock w) (trace w ++ [e])).

Definition Now : M Z := fun w => (clock w, w).

(** Modelled from the spec: [sm.Error(report)] hands the report to
    the "single sink that accepts structured error reports". *)
Definition sm_Error (sm : StateMachine) (r : ErrorReport) : M unit :=
  emit (EvReport r).

(** [a.WriteTo(c)]: one write on [c]; the octet count is dropped by
    the handler. *)
Definition WriteTo (a : Message) (c : Conn) : M (option error) :=
  bind (emit (EvWrite c a)) (fun _ => ret (write_error c a)).

Definition handleDWR (sm : StateMachine) (c : Conn) (m : Message)
  : M unit :=
  match Parse m with
  | Some err => sm_Error sm (mkErrorReport c m err)
  | None =>
      let a := Answer m Success in
      let a := NewAVP a OriginHost Mbit 0 (cfgOriginHost (cfg sm)) in
      let a := NewAVP a OriginRealm Mbit 0 (cfgOriginRealm (cfg sm)) in
      bind Now (fun now =>
      let stateid := Unsigned32 (uint32 now) in
      let a := NewAVP a OriginStateID Mbit 0 stateid in
      bind (WriteTo a c) (fun err =>
      match err with
      | Some err => sm_Error sm (mkErrorReport c m err)
      | None => ret tt
      end))
  end.

(** The events a run added to the trace. *)
Definition writes (es : list Event) : list (Conn * Message) :=
  flat_map (fun e => match e with EvWrite c a => [(c, a)] | _ => [] end) es.

Definition reports (es : list Event) : list ErrorReport :=
  flat_map (fun e => match e with EvReport r => [r] | _ => [] end) es.

Definition closes (es : list Event) : list Conn :=
  flat_map (fun e => match e with EvClose c => [c] | _ => [] end) es.

Definition new_events (w w' : World) : list Event :=
  skipn (length (trace w)) (trace w').

End Handler.

End sm.

(** A concrete setting for the handler: AVP data is an octet string or a
    number, errors are result codes, connections are numbered, the parser
    asks for the three mandatory AVPs by code, and writes succeed. *)
Module dwr_example.

Definition Datum : Type := (list byte + Z)%type.

Definition Parse (m : @sm.Message Datum) : option Z :=
  if forallb (fun code => existsb (fun a => sm.Code a =? code) (sm.AVPs m))
             [264; 296; 278]
  then None else Some 5005.

Definition write_error (c : nat) (a : @sm.Message Datum) : option Z := None.

Definition handleDWR :=
  sm.handleDWR 2001 264 296 278 64 (fun v => inr v : Datum) Parse write_error.

Definition peerA : list byte :=
  [Byte.x70; Byte.x65; Byte.x65; Byte.x72; Byte.x41].

Definition realm_test : list byte :=
  [Byte.x72; Byte.x65; Byte.x61; Byte.x6c; Byte.x6d; Byte.x2e;
   Byte.x74; Byte.x65; Byte.x73; Byte.x74].

Definition host_local : list byte :=
  [Byte.x73; Byte.x72; Byte.x76].

Definition realm_local : list byte :=
  [Byte.x6c; Byte.x6f; Byte.x63; Byte.x61; Byte.x6c].

Definition local : @sm.StateMachine Datum :=
  sm.mkStateMachine (sm.mkConfig (inl host_local) (inl realm_local)).

Definition request : @sm.Message Datum :=
  sm.mkMessage true 11 22 None
    [ sm.mkAVP 264 64 0 (inl peerA);
      sm.mkAVP 296 64 0 (inl realm_test);
      sm.mkAVP 278 64 0 (inr 7) ].

Definition request_without_realm : @sm.Message Datum :=
  sm.mkMessage true 11 22 None
    [ sm.mkAVP 264 64 0 (inl peerA);
      sm.mkAVP 278 64 0 (inr 7) ].

Definition world0 : @sm.World nat Z Datum := sm.mkWorld 1700000000 [].

(** A connection on which every write fails. *)
Definition broken_pipe (c : nat) (a : @sm.Message Datum) : option Z := Some 32.

Definition handleDWR_broken :=
  sm.handleDWR 2001 264 296 278 64 (fun v => inr v : Datum) Parse broken_pipe.

End dwr_example.

(** ** Properties *)

(** *** Padding arithmetic *)

Lemma uint32_small (z : Z) : 0 <= z < 2 ^ 32 -> uint32 z = z.
Proof. intros H. unfold uint32. apply Z.mod_small. exact H. Qed.

Lemma uint32_range (z : Z) : 0 <= uint32 z < 2 ^ 32.
Proof. unfold uint32. apply Z.mod_pos_bound. reflexivity. Qed.

Lemma len_nonneg {A : Type} (l : list A) : 0 <= len l.
Proof. unfold len. lia. Qed.

Lemma pad4_gap (n : Z) : 0 <= pad4 n - n <= 3.
Proof. unfold pad4. Z.div_mod_to_equations. lia. Qed.

Lemma pad4_gap_zero (n : Z) : pad4 n - n = 0 <-> n mod 4 = 0.
Proof. unfold pad4. Z.div_mod_to_equations. lia. Qed.

Lemma pad4_gap_uint32 (n : Z) : uint32 (pad4 n - n) = pad4 n - n.
Proof. apply uint32_small. pose proof (pad4_gap n). lia. Qed.

(** C5. For every non-negative integer [n], [pad4 n] is
    [((n + 3) / 4) * 4] under integer division; hence [pad4 n - n] is one
    of 0, 1, 2, 3 and [pad4 n] is a multiple of 4. *)
Theorem pad4_exact (n : Z) :
  0 <= n ->
  pad4 n = ((n + 3) / 4) * 4 /\
  (pad4 n - n = 0 \/ pad4 n - n = 1 \/ pad4 n - n = 2 \/ pad4 n - n = 3) /\
  pad4 n mod 4 = 0.
Proof.
  intros _. split; [reflexivity|].
  pose proof (pad4_gap n) as Hg.
  split; [lia|].
  unfold pad4. apply Z.mod_mul. discriminate.
Qed.

Lemma pad4_exact_witness :
  0 <= 5 /\
  (pad4 5 = ((5 + 3) / 4) * 4 /\
   (pad4 5 - 5 = 0 \/ pad4 5 - 5 = 1 \/ pad4 5 - 5 = 2 \/ pad4 5 - 5 = 3) /\
   pad4 5 mod 4 = 0).
Proof. split; [lia | apply (pad4_exact 5); lia]. Defined.

(** *** Octet strings *)

Lemma copy_into_zeros (v : list byte) (p : nat) :
  copy (repeat Byte.x00 (length v + p)) v = v ++ repeat Byte.x00 p.
Proof.
  unfold copy. rewrite repeat_length.
  rewrite firstn_all2 by lia.
  f_equal.
  rewrite repeat_app, skipn_app, repeat_length, Nat.sub_diag.
  rewrite skipn_all2 by (rewrite repeat_length; lia).
  reflexivity.
Qed.

(** The padding [Bytes] works with: the stored count unless it is zero. *)
Lemma updatePadding_Value (os : OctetString.t) :
  OctetString.Value (OctetString.updatePadding os) = OctetString.Value os.
Proof.
  unfold OctetString.updatePadding.
  destruct (OctetString.Padding os =? 0); reflexivity.
Qed.

Lemma updatePadding_nonneg (os : OctetString.t) :
  0 <= OctetString.Padding os ->
  0 <= OctetString.Padding (OctetString.updatePadding os).
Proof.
  intros H. unfold OctetString.updatePadding.
  destruct (OctetString.Padding os =? 0); [|exact H].
  cbn. apply uint32_range.
Qed.

(** As long as the wire size fits a [uint32], [Bytes] returns the value
    followed by as many zero octets as the padding it works with. *)
Lemma OctetString_Bytes_shape (os : OctetString.t) :
  let p := OctetString.Padding (snd (OctetString.Bytes os)) in
  0 <= OctetString.Padding os ->
  len (OctetString.Value os) + p < 2 ^ 32 ->
  fst (OctetString.Bytes os)
  = OctetString.Value os ++ repeat Byte.x00 (Z.to_nat p).
Proof.
  cbn zeta. unfold OctetString.Bytes. cbn [fst snd].
  intros H0 Hfit.
  pose proof (updatePadding_nonneg os H0) as Hp.
  rewrite updatePadding_Value in *.
  set (p := OctetString.Padding (OctetString.updatePadding os)) in *.
  pose proof (len_nonneg (OctetString.Value os)) as Hl.
  rewrite (uint32_small (len _)) by lia.
  rewrite uint32_small by lia.
  unfold make, len.
  rewrite Z2Nat.inj_add by lia. rewrite Nat2Z.id.
  apply copy_into_zeros.
Qed.

(** With a zero [Padding] field the padding is recomputed from the
    value, and the result is the value padded to a multiple of 4. *)
Lemma OctetString_Bytes_fresh (v : list byte) :
  len v + 3 < 2 ^ 32 ->
  fst (OctetString.Bytes (OctetString.mk v 0))
  = v ++ repeat Byte.x00 (Z.to_nat (pad4 (len v) - len v)).
Proof.
  intros Hfit.
  pose proof (len_nonneg v) as Hl.
  pose proof (pad4_gap (len v)) as Hg.
  assert (Hp : OctetString.Padding (snd (OctetString.Bytes (OctetString.mk v 0)))
               = pad4 (len v) - len v).
  { cbn. rewrite (uint32_small (len v)) by lia. apply pad4_gap_uint32. }
  rewrite <- Hp.
  apply (OctetString_Bytes_shape (OctetString.mk v 0)); cbn [OctetString.Padding OctetString.Value].
  - lia.
  - rewrite Hp. lia.
Qed.

Lemma app_repeat_same {A : Type} (v : list A) (x : A) (n : nat) :
  v ++ repeat x n = v <-> n = 0%nat.
Proof.
  split.
  - intros H. apply (f_equal (@length A)) in H.
    rewrite length_app, repeat_length in H. lia.
  - intros ->. apply app_nil_r.
Qed.

Lemma OctetString_decode_keeps_padding (v : OctetString.t) :
  fits_uint32 v -> decode_keeps_padding v.
Proof.
  unfold fits_uint32, decode_keeps_padding, wire_padding.
  cbn [pc_Padding pc_Value pc_Bytes pc_Put pc_zero OctetString_codec].
  intros [H0 Hfit].
  pose proof (OctetString_Bytes_shape v H0 Hfit) as Hw. cbn zeta in Hw.
  pose proof (updatePadding_nonneg v H0) as Hp.
  rewrite Hw.
  change (OctetString.Value (OctetString.Put OctetString.zero ?w)) with w.
  repeat split.
  - intros H. apply app_repeat_same in H.
    change (snd (OctetString.Bytes v)) with (OctetString.updatePadding v) in *.
    lia.
  - intros ->. apply app_nil_r.
Qed.

(** C1 (as the code has it). For every value [v] of the octet-string
    family whose wire size fits a [uint32]: [w := v.Bytes()] is [v.Value]
    followed by the padding octets, all zero, and after [u.Put(w)] on a
    fresh [u], [u.Value] is [v.Value] followed by those padding octets; it
    equals [v.Value] exactly when [Bytes] appended no padding. *)
Theorem octet_family_decode_encode :
  (forall v : OctetString.t, fits_uint32 v -> decode_keeps_padding v) /\
  (forall v : UTF8String.t, fits_uint32 v -> decode_keeps_padding v) /\
  (forall v : DiameterIdentity.t, fits_uint32 v -> decode_keeps_padding v) /\
  (forall v : IPFilterRule.t, fits_uint32 v -> decode_keeps_padding v).
Proof.
  split; [exact OctetString_decode_keeps_padding|].
  split; [|split]; intros [os] Hf;
    exact (OctetString_decode_keeps_padding os Hf).
Qed.

Lemma octet_family_decode_encode_witness :
  fits_uint32 (OctetString.mk [Byte.x61] 0) /\
  decode_keeps_padding (OctetString.mk [Byte.x61] 0).
Proof.
  assert (Hf : fits_uint32 (OctetString.mk [Byte.x61] 0)).
  { vm_compute. split; [discriminate | reflexivity]. }
  split; [exact Hf | exact (proj1 octet_family_decode_encode _ Hf)].
Defined.

(** C1 as stated fails: encoding the one-octet value "a" appends three
    padding octets, and decoding them into a fresh value leaves the four
    octets "a\0\0\0" in [Value], not "a". *)
Lemma octet_roundtrip_counterexample :
  let v := OctetString.mk [Byte.x61] 0 in
  let w := fst (OctetString.Bytes v) in
  OctetString.Value (OctetString.Put OctetString.zero w)
  <> OctetString.Value v.
Proof. vm_compute. discriminate. Qed.

(** What [Length] returns after [Put]: the octet count minus the padding
    it would need, in [uint32] arithmetic. *)
Lemma OctetString_Length_after_Put (os : OctetString.t) (b : list byte) :
  len b < 2 ^ 32 ->
  OctetString.Length (OctetString.Put os b)
  = uint32 (len b - (pad4 (len b) - len b)).
Proof.
  intros Hb. pose proof (len_nonneg b) as Hl.
  unfold OctetString.Length, OctetString.Put. cbn.
  rewrite (uint32_small (len b)) by lia.
  rewrite pad4_gap_uint32. reflexivity.
Qed.

(** It is the octet count exactly when the count is a multiple of 4. *)
Lemma OctetString_Length_after_Put_iff (os : OctetString.t) (b : list byte) :
  len b < 2 ^ 32 ->
  OctetString.Length (OctetString.Put os b) = len b <-> len b mod 4 = 0.
Proof.
  intros Hb. pose proof (len_nonneg b) as Hl.
  rewrite OctetString_Length_after_Put by exact Hb.
  pose proof (pad4_gap (len b)) as Hg.
  rewrite <- pad4_gap_zero.
  unfold uint32. split.
  - intros H.
    destruct (Z.eq_dec (pad4 (len b) - len b) 0) as [E|E]; [exact E|].
    exfalso.
    destruct (Z_le_gt_dec (pad4 (len b) - len b) (len b)) as [Hle|Hgt].
    + rewrite Z.mod_small in H by lia. lia.
    + replace (len b - (pad4 (len b) - len b))
        with (2 * len b - pad4 (len b) + 2 ^ 32 + (-1) * 2 ^ 32) in H by lia.
      rewrite Z.mod_add in H by discriminate.
      rewrite Z.mod_small in H by lia. lia.
  - intros E. rewrite E, Z.sub_0_r. apply Z.mod_small. lia.
Qed.

(** C2 (failing input). After [Put] of the single octet "a", [Length]
    returns 1 - 3 in [uint32] arithmetic, 4294967294, and not 1, the
    number of octets of the value. *)
Theorem OctetString_Length_after_Put_one_octet :
  OctetString.Length (OctetString.Put OctetString.zero [Byte.x61])
  = 4294967294 /\
  len [Byte.x61] = 1.
Proof. split; reflexivity. Qed.

(** C8 (failing input). With a non-zero [Padding] field, [Bytes] does
    not recompute the padding: the value "a" with [Padding = 1] is
    encoded as two octets. The same happens through the exported
    fields: after [Bytes] on "a" has stored [Padding = 3], assigning
    "abcd" to [Value] makes [Bytes] return seven octets. *)
Theorem OctetString_Bytes_stale_padding :
  fst (OctetString.Bytes (OctetString.mk [Byte.x61] 1))
  = [Byte.x61; Byte.x00] /\
  (let os := snd (OctetString.Bytes (OctetString.mk [Byte.x61] 0)) in
   let os := OctetString.mk [Byte.x61; Byte.x62; Byte.x63; Byte.x64]
                            (OctetString.Padding os) in
   fst (OctetString.Bytes os)
   = [Byte.x61; Byte.x62; Byte.x63; Byte.x64; Byte.x00; Byte.x00; Byte.x00]).
Proof. split; reflexivity. Qed.

(** *** Big-endian words *)

Lemma Uint32_PutUint32 (v : Z) :
  binary.Uint32 (binary.PutUint32 v) = uint32 v.
Proof.
  unfold binary.Uint32, binary.PutUint32, uint32. cbn [nth].
  rewrite !byte.unsigned_of_Z. unfold byte.wrap.
  rewrite <- !Z.land_ones by lia.
  Z.bitblast.
Qed.

Lemma Uint64_halves (b0 b1 b2 b3 b4 b5 b6 b7 : byte) :
  binary.Uint64 [b0; b1; b2; b3; b4; b5; b6; b7]
  = Z.lor (binary.Uint32 [b4; b5; b6; b7])
          (Z.shiftl (binary.Uint32 [b0; b1; b2; b3]) 32).
Proof.
  unfold binary.Uint64, binary.Uint32. cbn [nth].
  rewrite !Z.shiftl_lor, !Z.shiftl_shiftl by lia.
  rewrite !Z.lor_assoc. reflexivity.
Qed.

Lemma PutUint64_halves (v : Z) :
  binary.PutUint64 v
  = binary.PutUint32 (Z.shiftr v 32) ++ binary.PutUint32 v.
Proof.
  unfold binary.PutUint64, binary.PutUint32.
  rewrite !Z.shiftr_shiftr by lia. reflexivity.
Qed.

Lemma Uint64_PutUint64 (v : Z) :
  binary.Uint64 (binary.PutUint64 v) = uint64 v.
Proof.
  rewrite PutUint64_halves. unfold binary.PutUint32 at 1 2.
  cbn [app]. rewrite Uint64_halves.
  change [byte.of_Z (Z.shiftr v 24); byte.of_Z (Z.shiftr v 16);
          byte.of_Z (Z.shiftr v 8); byte.of_Z v]
    with (binary.PutUint32 v).
  change [byte.of_Z (Z.shiftr (Z.shiftr v 32) 24);
          byte.of_Z (Z.shiftr (Z.shiftr v 32) 16);
          byte.of_Z (Z.shiftr (Z.shiftr v 32) 8);
          byte.of_Z (Z.shiftr v 32)]
    with (binary.PutUint32 (Z.shiftr v 32)).
  rewrite !Uint32_PutUint32. unfold uint32, uint64.
  rewrite <- !Z.land_ones by lia.
  Z.bitblast.
Qed.

Lemma uint64_small (z : Z) : 0 <= z < 2 ^ 64 -> uint64 z = z.
Proof. intros H. unfold uint64. apply Z.mod_small. exact H. Qed.

Lemma uint32_idem (z : Z) : uint32 (uint32 z) = uint32 z.
Proof. apply uint32_small, uint32_range. Qed.

Lemma uint64_idem (z : Z) : uint64 (uint64 z) = uint64 z.
Proof. apply uint64_small. unfold uint64. apply Z.mod_pos_bound. reflexivity. Qed.

(** Converting a signed value to the unsigned type and back. *)
Lemma int32_uint32 (v : Z) : - 2 ^ 31 <= v < 2 ^ 31 -> int32 (uint32 v) = v.
Proof.
  intros Hv. unfold int32. rewrite uint32_idem. unfold uint32.
  change (2 ^ 32) with 4294967296. change (2 ^ 31) with 2147483648 in *.
  destruct (Z.ltb_spec (v mod 4294967296) 2147483648);
    Z.div_mod_to_equations; lia.
Qed.

Lemma int64_uint64 (v : Z) : - 2 ^ 63 <= v < 2 ^ 63 -> int64 (uint64 v) = v.
Proof.
  intros Hv. unfold int64. rewrite uint64_idem. unfold uint64.
  change (2 ^ 64) with 18446744073709551616.
  change (2 ^ 63) with 9223372036854775808 in *.
  destruct (Z.ltb_spec (v mod 18446744073709551616) 9223372036854775808);
    Z.div_mod_to_equations; lia.
Qed.

(** *** Numeric codecs *)

Lemma encode_length (k : Numeric.kind) (v : Z) :
  length (Numeric.encode k v) = Numeric.size k.
Proof. destruct k; reflexivity. Qed.

Lemma ReadFull_exact (n : nat) (b : list byte) :
  length b = n -> binary.ReadFull n b = Some b.
Proof.
  intros H. unfold binary.ReadFull.
  destruct (Nat.ltb_spec (length b) n); [lia|].
  rewrite firstn_all2 by lia. reflexivity.
Qed.

Lemma decode_encode (k : Numeric.kind) (v : Z) :
  Numeric.representable k v -> Numeric.decode k (Numeric.encode k v) = v.
Proof.
  destruct k; cbn [Numeric.representable Numeric.decode Numeric.encode];
    intros Hv;
    unfold math.Float32bits, math.Float32frombits,
           math.Float64bits, math.Float64frombits;
    rewrite ?Uint32_PutUint32, ?Uint64_PutUint64,
            ?uint32_idem, ?uint64_idem.
  - apply int32_uint32, Hv.
  - apply int64_uint64, Hv.
  - apply uint32_small, Hv.
  - apply uint64_small, Hv.
  - apply uint32_small, Hv.
  - apply uint64_small, Hv.
Qed.

(** C9. For each of the six numeric types and every value [v] of its Go
    type, [Bytes] followed by [Put] of the octets on a fresh value gives
    back [v]; floats are compared by bit pattern. *)
Theorem numeric_decode_encode (k : Numeric.kind) (v : Z)
                              (buf : option (list byte)) :
  Numeric.representable k v ->
  Numeric.Value
    (Numeric.Put k Numeric.zero
       (Some (fst (Numeric.Bytes k (Numeric.mk v buf))))) = v.
Proof.
  intros Hv. unfold Numeric.Bytes, Numeric.Put.
  cbn [fst Numeric.Buffer Numeric.Value Numeric.octets].
  rewrite ReadFull_exact by apply encode_length.
  cbn [Numeric.Value]. apply decode_encode, Hv.
Qed.

Lemma numeric_decode_encode_witness :
  Numeric.representable Numeric.KInteger32 (-1) /\
  Numeric.Value
    (Integer32.Put Numeric.zero
       (Some (fst (Integer32.Bytes (Numeric.mk (-1) None))))) = -1.
Proof.
  assert (H : Numeric.representable Numeric.KInteger32 (-1)).
  { cbn. lia. }
  split; [exact H | exact (numeric_decode_encode Numeric.KInteger32 (-1) None H)].
Defined.

(** Boundary values on the wire. *)
Example Integer32_minus_one_octets :
  fst (Integer32.Bytes (Numeric.mk (-1) None))
  = [Byte.xff; Byte.xff; Byte.xff; Byte.xff].
Proof. reflexivity. Qed.

Example Integer64_min_octets :
  fst (Integer64.Bytes (Numeric.mk (- 2 ^ 63) None))
  = [Byte.x80; Byte.x00; Byte.x00; Byte.x00;
     Byte.x00; Byte.x00; Byte.x00; Byte.x00].
Proof. reflexivity. Qed.

Example Unsigned32_max_decoded :
  Numeric.Value (Unsigned32.Put Numeric.zero
                   (Some [Byte.xff; Byte.xff; Byte.xff; Byte.xff]))
  = 2 ^ 32 - 1.
Proof. reflexivity. Qed.

Lemma uint32_size (k : Numeric.kind) :
  uint32 (Z.of_nat (Numeric.size k)) = Z.of_nat (Numeric.size k).
Proof. destruct k; reflexivity. Qed.

Lemma Length_cache_ok (k : Numeric.kind) (n : Numeric.t) :
  Numeric.cache_ok k n ->
  fst (Numeric.Length k n) = Z.of_nat (Numeric.size k).
Proof.
  unfold Numeric.cache_ok, Numeric.Length. destruct n as [v [b|]]; cbn.
  - intros H. unfold len. rewrite H. apply uint32_size.
  - intros _. unfold len. rewrite encode_length. apply uint32_size.
Qed.

Lemma Bytes_cache_ok (k : Numeric.kind) (n : Numeric.t) :
  Numeric.cache_ok k (snd (Numeric.Bytes k n)).
Proof. unfold Numeric.cache_ok. cbn. apply encode_length. Qed.

Lemma Put_Buffer (k : Numeric.kind) (n : Numeric.t) (d : option (list byte)) :
  Numeric.Buffer (Numeric.Put k n d) = d.
Proof.
  unfold Numeric.Put. cbn [Numeric.Buffer].
  destruct (binary.ReadFull (Numeric.size k) (Numeric.octets d)); reflexivity.
Qed.

Lemma step_cache_ok (k : Numeric.kind) (n : Numeric.t) (o : Numeric.op) :
  Numeric.exact_width k o -> Numeric.cache_ok k n ->
  Numeric.cache_ok k (Numeric.step k n o).
Proof.
  destruct o as [d| |]; cbn [Numeric.step Numeric.exact_width]; intros Hw Hn.
  - unfold Numeric.cache_ok. rewrite Put_Buffer. destruct d; [exact Hw|exact I].
  - apply Bytes_cache_ok.
  - unfold Numeric.Length. destruct n as [v [b|]]; cbn [Numeric.Buffer snd].
    + exact Hn.
    + apply Bytes_cache_ok.
Qed.

Lemma run_cache_ok (k : Numeric.kind) (ops : list Numeric.op) :
  Forall (Numeric.exact_width k) ops ->
  forall n, Numeric.cache_ok k n -> Numeric.cache_ok k (Numeric.run k ops n).
Proof.
  unfold Numeric.run.
  induction 1 as [|o ops Ho _ IH]; intros n Hn; cbn [fold_left].
  - exact Hn.
  - apply IH, step_cache_ok; assumption.
Qed.

Lemma run_snoc (k : Numeric.kind) (ops : list Numeric.op) (o : Numeric.op)
               (n : Numeric.t) :
  Numeric.run k (ops ++ [o]) n = Numeric.step k (Numeric.run k ops n) o.
Proof. unfold Numeric.run. rewrite fold_left_app. reflexivity. Qed.

(** C6 (as the code has it). On a value whose [Buffer] is [nil], as in
    a fresh value, or holds exactly as many octets as the type is wide,
    [Length] returns that width, 4 or 8, after any sequence of calls in
    which every [Put] received [nil] or exactly that many octets; on any
    value it returns the width after a sequence that ends with [Bytes];
    and right after [Put] of a non-nil [b] it returns the octet count of
    [b], whatever it is. *)
Theorem numeric_Length_width (k : Numeric.kind) :
  (forall ops n,
      Numeric.cache_ok k n -> Forall (Numeric.exact_width k) ops ->
      fst (Numeric.Length k (Numeric.run k ops n))
      = Z.of_nat (Numeric.size k)) /\
  (forall ops n,
      fst (Numeric.Length k (Numeric.run k (ops ++ [Numeric.OpBytes]) n))
      = Z.of_nat (Numeric.size k)) /\
  (forall n b,
      fst (Numeric.Length k (Numeric.Put k n (Some b))) = uint32 (len b)).
Proof.
  split; [|split].
  - intros ops n Hn Hops. apply Length_cache_ok, run_cache_ok; assumption.
  - intros ops n. rewrite run_snoc. apply Length_cache_ok, Bytes_cache_ok.
  - intros n b. unfold Numeric.Length. rewrite Put_Buffer.
    cbn [fst]. rewrite Put_Buffer. reflexivity.
Qed.

Lemma numeric_Length_width_witness :
  let ops := [Numeric.OpPut (Some [Byte.x00; Byte.x00; Byte.x00; Byte.x07]);
              Numeric.OpLength; Numeric.OpPut None; Numeric.OpBytes] in
  Numeric.cache_ok Numeric.KInteger32 Numeric.zero /\
  Forall (Numeric.exact_width Numeric.KInteger32) ops /\
  fst (Integer32.Length (Numeric.run Numeric.KInteger32 ops Numeric.zero)) = 4.
Proof.
  cbn zeta.
  assert (H0 : Numeric.cache_ok Numeric.KInteger32 Numeric.zero) by exact I.
  assert (H1 : Forall (Numeric.exact_width Numeric.KInteger32)
                 [Numeric.OpPut (Some [Byte.x00; Byte.x00; Byte.x00; Byte.x07]);
                  Numeric.OpLength; Numeric.OpPut None; Numeric.OpBytes]).
  { repeat constructor. }
  split; [exact H0|]. split; [exact H1|].
  exact (proj1 (numeric_Length_width Numeric.KInteger32) _ _ H0 H1).
Defined.

(** C6 as stated fails: after [Put] of two octets on a fresh
    [Integer32], [Length] returns 2. *)
Lemma numeric_Length_counterexample :
  fst (Integer32.Length
         (Integer32.Put Numeric.zero (Some [Byte.x00; Byte.x07]))) <> 4.
Proof. vm_compute. discriminate. Qed.

(** *** Address *)

Lemma accepts_spec (b : list byte) :
  Address.accepts b = true <-> 6 <= len b /\ nth 1 b Byte.x00 = Byte.x01.
Proof.
  unfold Address.accepts. rewrite andb_true_iff, Z.leb_le.
  split; intros [Hl Hf]; split; try exact Hl.
  - apply Byte.byte_dec_bl, Hf.
  - apply Byte.byte_dec_lb, Hf.
Qed.

Lemma Put_accepted (addr : Address.t) (b : list byte) :
  Address.accepts b = true ->
  Address.Put addr b
  = Address.mk (Some [nth 0 b Byte.x00; nth 1 b Byte.x00])
               (net.IPv4 (nth 2 b Byte.x00) (nth 3 b Byte.x00)
                         (nth 4 b Byte.x00) (nth 5 b Byte.x00))
               2.
Proof. intros H. unfold Address.Put. rewrite H. reflexivity. Qed.

Lemma Put_rejected (addr : Address.t) (b : list byte) :
  Address.accepts b = false -> Address.Put addr b = addr.
Proof. intros H. unfold Address.Put. rewrite H. reflexivity. Qed.

Lemma accepts_firstn (b : list byte) :
  Address.accepts b = true -> Address.accepts (firstn 6 b) = true.
Proof.
  rewrite !accepts_spec. unfold len. intros [Hl Hf].
  rewrite length_firstn, nth_firstn.
  change (1 <? 6)%nat with true. cbv iota.
  split; [lia|exact Hf].
Qed.

(** Once a value has been decoded, decoding the same accepted octets
    again leaves it as it is. *)
Lemma Put_accepted_twice (addr : Address.t) (b : list byte) :
  Address.accepts b = true ->
  Address.Put (Address.Put addr b) b = Address.Put addr b.
Proof. intros H. rewrite !Put_accepted by exact H. reflexivity. Qed.

(** C10. [Put] accepts [b] exactly when it has at least six octets and
    its second octet is 1: it then stores the first two octets as the
    family, whatever the first one is, the next four as the IPv4 address
    and a padding of 2, and does not look beyond the sixth octet; every
    other input leaves the value as it was. *)
Theorem Address_Put_classifies (addr : Address.t) (b : list byte) :
  (6 <= len b /\ nth 1 b Byte.x00 = Byte.x01 ->
   Address.Put addr b
   = Address.mk (Some [nth 0 b Byte.x00; nth 1 b Byte.x00])
                (net.IPv4 (nth 2 b Byte.x00) (nth 3 b Byte.x00)
                          (nth 4 b Byte.x00) (nth 5 b Byte.x00))
                2 /\
   Address.Put addr b = Address.Put addr (firstn 6 b)) /\
  (~ (6 <= len b /\ nth 1 b Byte.x00 = Byte.x01) ->
   Address.Put addr b = addr).
Proof.
  split.
  - intros Hc. apply accepts_spec in Hc.
    split; [apply Put_accepted, Hc|].
    rewrite (Put_accepted addr b Hc).
    rewrite (Put_accepted addr (firstn 6 b) (accepts_firstn b Hc)).
    rewrite !nth_firstn. reflexivity.
  - intros Hc. apply Put_rejected.
    destruct (Address.accepts b) eqn:E; [|reflexivity].
    apply accepts_spec in E. contradiction.
Qed.

Lemma Address_Put_classifies_witness :
  let b := [Byte.xff; Byte.x01; Byte.xc0; Byte.x00; Byte.x02; Byte.x01;
            Byte.x09; Byte.x09] in
  (6 <= len b /\ nth 1 b Byte.x00 = Byte.x01) /\
  Address.Put Address.zero b
  = Address.mk (Some [Byte.xff; Byte.x01])
               (net.IPv4 Byte.xc0 Byte.x00 Byte.x02 Byte.x01) 2 /\
  Address.Put Address.zero b = Address.Put Address.zero (firstn 6 b).
Proof.
  cbn zeta.
  assert (Hc : 6 <= len [Byte.xff; Byte.x01; Byte.xc0; Byte.x00; Byte.x02;
                         Byte.x01; Byte.x09; Byte.x09] /\
               nth 1 [Byte.xff; Byte.x01; Byte.xc0; Byte.x00; Byte.x02;
                      Byte.x01; Byte.x09; Byte.x09] Byte.x00 = Byte.x01).
  { split; [unfold len; simpl; lia | reflexivity]. }
  split; [exact Hc|].
  exact (proj1 (Address_Put_classifies Address.zero _) Hc).
Defined.

(** C7 (as the code has it). On input that [Put] does not accept, fewer
    than six octets or a second octet other than 1, the value is left
    entirely unchanged, never partly populated, and nothing tells the
    caller: on a value that already holds a decoded address the outcome is
    the same as that of an accepted decode. *)
Theorem Address_Put_rejects_silently (addr : Address.t) (b : list byte) :
  Address.accepts b = false ->
  Address.Put addr b = addr /\
  (forall good,
      Address.accepts good = true ->
      ~ Address.rejection_visible (Address.Put addr good) b).
Proof.
  intros Hb. split; [apply Put_rejected, Hb|].
  intros good Hg Hvis.
  apply (Hvis good Hg).
  rewrite Put_rejected by exact Hb.
  symmetry. apply Put_accepted_twice, Hg.
Qed.

Lemma Address_Put_rejects_silently_witness :
  let b := [Byte.x00; Byte.x02; Byte.x20; Byte.x01; Byte.x0d; Byte.xb8;
            Byte.x00; Byte.x00; Byte.x00; Byte.x00; Byte.x00; Byte.x00;
            Byte.x00; Byte.x00; Byte.x00; Byte.x00; Byte.x00; Byte.x01] in
  Address.accepts b = false /\ Address.Put Address.zero b = Address.zero.
Proof.
  cbn zeta.
  assert (Hb : Address.accepts
                 [Byte.x00; Byte.x02; Byte.x20; Byte.x01; Byte.x0d; Byte.xb8;
                  Byte.x00; Byte.x00; Byte.x00; Byte.x00; Byte.x00; Byte.x00;
                  Byte.x00; Byte.x00; Byte.x00; Byte.x00; Byte.x00; Byte.x01]
               = false) by reflexivity.
  split; [exact Hb|].
  exact (proj1 (Address_Put_rejects_silently Address.zero _ Hb)).
Defined.

(** C7 as stated fails: an IPv6 address (family 2) put into a value that
    holds the IPv4 address 192.0.2.1 is not accepted, and the call ends
    exactly as the accepted decode of 192.0.2.1 does; no error reaches
    the caller. *)
Lemma Address_Put_no_error_counterexample :
  let good := [Byte.x00; Byte.x01; Byte.xc0; Byte.x00; Byte.x02; Byte.x01] in
  let bad := [Byte.x00; Byte.x02; Byte.x20; Byte.x01; Byte.x0d; Byte.xb8;
              Byte.x00; Byte.x00; Byte.x00; Byte.x00; Byte.x00; Byte.x00;
              Byte.x00; Byte.x00; Byte.x00; Byte.x00; Byte.x00; Byte.x01] in
  let addr := Address.Put Address.zero good in
  Address.accepts bad = false /\
  Address.Put addr bad = Address.Put addr good /\
  ~ Address.rejection_visible addr bad.
Proof.
  cbn zeta. split; [reflexivity|]. split; [reflexivity|].
  intros Hvis.
  apply (Hvis [Byte.x00; Byte.x01; Byte.xc0; Byte.x00; Byte.x02; Byte.x01]);
    reflexivity.
Qed.

(** *** The watchdog handler *)

Section HandlerProperties.

Variables Conn error Datum : Type.
Variables Success OriginHost OriginRealm OriginStateID Mbit : Z.
Variable Unsigned32 : Z -> Datum.
Variable Parse : @sm.Message Datum -> option error.
Variable write_error : Conn -> @sm.Message Datum -> option error.

Local Abbreviation handleDWR :=
  (sm.handleDWR Success OriginHost OriginRealm OriginStateID Mbit
                Unsigned32 Parse write_error).
Local Abbreviation World := (@sm.World Conn error Datum).
Local Abbreviation StateMachine := (@sm.StateMachine Datum).
Local Abbreviation Message := (@sm.Message Datum).

(** The answer the handler builds for request [m] at clock [now]. *)
Local Abbreviation answer s m now :=
  (sm.mkMessage false (sm.HopByHopID m) (sm.EndToEndID m) (Some Success)
     [ sm.mkAVP OriginHost Mbit 0 (sm.cfgOriginHost (sm.cfg s));
       sm.mkAVP OriginRealm Mbit 0 (sm.cfgOriginRealm (sm.cfg s));
       sm.mkAVP OriginStateID Mbit 0 (Unsigned32 (uint32 now)) ]).

Lemma new_events_app (w : World) (es : list (@sm.Event Conn error Datum)) :
  sm.new_events w (sm.mkWorld (sm.clock w) (sm.trace w ++ es)) = es.
Proof.
  unfold sm.new_events. cbn [sm.trace].
  rewrite skipn_app, skipn_all, Nat.sub_diag. reflexivity.
Qed.

Lemma handleDWR_parsed (s : StateMachine) (c : Conn) (m : Message) (w : World) :
  Parse m = None ->
  snd (handleDWR s c m w)
  = sm.mkWorld (sm.clock w)
      (sm.trace w ++
       sm.EvWrite c (answer s m (sm.clock w)) ::
       match write_error c (answer s m (sm.clock w)) with
       | Some err => [sm.EvReport (sm.mkErrorReport c m err)]
       | None => []
       end).
Proof.
  intros Hp. unfold sm.handleDWR. rewrite Hp.
  unfold sm.bind, sm.Now, sm.WriteTo, sm.bind, sm.emit, sm.ret,
         sm.NewAVP, sm.Answer.
  cbn [sm.clock sm.trace sm.AVPs sm.Request sm.HopByHopID sm.EndToEndID
       sm.ResultCode app].
  destruct (write_error c _) as [err|];
    unfold sm.sm_Error, sm.emit, sm.ret; cbn [snd sm.clock sm.trace].
  - rewrite <- app_assoc. reflexivity.
  - reflexivity.
Qed.

Lemma handleDWR_unparsed (s : StateMachine) (c : Conn) (m : Message)
                         (w : World) (err : error) :
  Parse m = Some err ->
  snd (handleDWR s c m w)
  = sm.mkWorld (sm.clock w)
      (sm.trace w ++ [sm.EvReport (sm.mkErrorReport c m err)]).
Proof. intros Hp. unfold sm.handleDWR. rewrite Hp. reflexivity. Qed.

(** C3. When the mandatory fields of the request parse, the handler
    makes exactly one write, on the connection the request came from, of
    an answer with result code Success, the configured Origin-Host and
    Origin-Realm and an Origin-State-Id taken from the clock at the time of
    the call; when that write succeeds no error is reported. *)
Theorem handleDWR_answers (s : StateMachine) (c : Conn) (m : Message)
                          (w : World) :
  Parse m = None ->
  let w' := snd (handleDWR s c m w) in
  let a := answer s m (sm.clock w) in
  sm.trace w' = sm.trace w ++ sm.new_events w w' /\
  sm.writes (sm.new_events w w') = [(c, a)] /\
  sm.closes (sm.new_events w w') = [] /\
  (write_error c a = None -> sm.reports (sm.new_events w w') = []).
Proof.
  intros Hp. cbn zeta. rewrite (handleDWR_parsed s c m w Hp).
  rewrite new_events_app. cbn [sm.trace].
  split; [reflexivity|].
  destruct (write_error c _) as [err|]; cbn.
  - repeat split. discriminate.
  - repeat split.
Qed.

(** C4. When the parse of the mandatory fields fails, the handler writes
    nothing, hands exactly one report to the error sink, made of the
    connection, the request and the parse failure, and does not close the
    connection. *)
Theorem handleDWR_reports_parse_failure
        (s : StateMachine) (c : Conn) (m : Message) (w : World) (err : error) :
  Parse m = Some err ->
  let w' := snd (handleDWR s c m w) in
  sm.trace w' = sm.trace w ++ sm.new_events w w' /\
  sm.writes (sm.new_events w w') = [] /\
  sm.reports (sm.new_events w w') = [sm.mkErrorReport c m err] /\
  sm.closes (sm.new_events w w') = [].
Proof.
  intros Hp. cbn zeta. rewrite (handleDWR_unparsed s c m w err Hp).
  rewrite new_events_app. cbn. repeat split.
Qed.

End HandlerProperties.

Lemma handleDWR_answers_witness :
  let w' := snd (dwr_example.handleDWR dwr_example.local 3%nat
                   dwr_example.request dwr_example.world0) in
  dwr_example.Parse dwr_example.request = None /\
  sm.writes (sm.new_events dwr_example.world0 w')
  = [(3%nat,
      sm.mkMessage false 11 22 (Some 2001)
        [ sm.mkAVP 264 64 0 (inl dwr_example.host_local);
          sm.mkAVP 296 64 0 (inl dwr_example.realm_local);
          sm.mkAVP 278 64 0 (inr 1700000000) ])] /\
  sm.reports (sm.new_events dwr_example.world0 w') = [].
Proof.
  cbn zeta.
  assert (Hp : dwr_example.Parse dwr_example.request = None) by reflexivity.
  pose proof (handleDWR_answers nat Z dwr_example.Datum 2001 264 296 278 64
                (fun v => inr v) dwr_example.Parse dwr_example.write_error
                dwr_example.local 3%nat dwr_example.request
                dwr_example.world0 Hp) as H.
  cbn zeta in H. destruct H as (_ & Hw & _ & Hr).
  split; [exact Hp|]. split; [exact Hw|]. apply Hr. reflexivity.
Defined.

Lemma handleDWR_reports_parse_failure_witness :
  let w' := snd (dwr_example.handleDWR dwr_example.local 3%nat
                   dwr_example.request_without_realm dwr_example.world0) in
  dwr_example.Parse dwr_example.request_without_realm = Some 5005 /\
  sm.writes (sm.new_events dwr_example.world0 w') = [] /\
  sm.reports (sm.new_events dwr_example.world0 w')
  = [sm.mkErrorReport 3%nat dwr_example.request_without_realm 5005] /\
  sm.closes (sm.new_events dwr_example.world0 w') = [].
Proof.
  cbn zeta.
  assert (Hp : dwr_example.Parse dwr_example.request_without_realm
               = Some 5005) by reflexivity.
  pose proof (handleDWR_reports_parse_failure
                nat Z dwr_example.Datum 2001 264 296 278 64
                (fun v => inr v) dwr_example.Parse dwr_example.write_error
                dwr_example.local 3%nat dwr_example.request_without_realm
                dwr_example.world0 5005 Hp) as H.
  cbn zeta in H. destruct H as (_ & Hw & Hr & Hc).
  split; [exact Hp|]. split; [exact Hw|]. split; [exact Hr|exact Hc].
Defined.

(** ** Further properties of the codecs *)

(** *** Octet strings *)

Lemma updatePadding_idempotent (os : OctetString.t) :
  OctetString.updatePadding (OctetString.updatePadding os)
  = OctetString.updatePadding os.
Proof.
  unfold OctetString.updatePadding.
  destruct (OctetString.Padding os =? 0) eqn:E.
  - cbn [OctetString.Padding OctetString.Value].
    destruct (uint32 _ =? 0) eqn:E'; [|reflexivity].
    apply Z.eqb_eq in E'. rewrite E'. reflexivity.
  - rewrite E. reflexivity.
Qed.

(** X1. Calling [Bytes] a second time returns the same octets and
    leaves the value as the first call left it; neither call touches
    [Value]. *)
Theorem OctetString_Bytes_idempotent (os : OctetString.t) :
  OctetString.Bytes (snd (OctetString.Bytes os))
  = (fst (OctetString.Bytes os), snd (OctetString.Bytes os)) /\
  OctetString.Value (snd (OctetString.Bytes os)) = OctetString.Value os.
Proof.
  unfold OctetString.Bytes. cbn [fst snd].
  rewrite !updatePadding_idempotent.
  split; [reflexivity | apply updatePadding_Value].
Qed.

Lemma len_mod4_uint32 (z : Z) : uint32 z mod 4 = z mod 4.
Proof.
  unfold uint32. change (2 ^ 32) with 4294967296.
  Z.div_mod_to_equations. lia.
Qed.

Lemma pad4_mod4 (n : Z) : pad4 n mod 4 = 0.
Proof. unfold pad4. apply Z.mod_mul. discriminate. Qed.

Lemma Put_padding_consistent (os : OctetString.t) (b : list byte) :
  OctetString.padding_consistent (OctetString.Put os b).
Proof.
  unfold OctetString.padding_consistent, OctetString.Put.
  cbn [OctetString.Padding OctetString.Value].
  rewrite pad4_gap_uint32.
  pose proof (pad4_gap (uint32 (len b))) as Hg.
  split; [exact Hg|].
  rewrite <- Z.add_mod_idemp_l by lia.
  rewrite <- (len_mod4_uint32 (len b)).
  rewrite Z.add_mod_idemp_l by lia.
  replace (uint32 (len b) + (pad4 (uint32 (len b)) - uint32 (len b)))
    with (pad4 (uint32 (len b))) by lia.
  apply pad4_mod4.
Qed.

Lemma updatePadding_consistent (os : OctetString.t) :
  OctetString.Padding os = 0 \/ OctetString.padding_consistent os ->
  OctetString.padding_consistent (OctetString.updatePadding os).
Proof.
  intros H. unfold OctetString.updatePadding.
  destruct (Z.eqb_spec (OctetString.Padding os) 0) as [E|E].
  - exact (Put_padding_consistent os (OctetString.Value os)).
  - destruct H as [H|H]; [contradiction|exact H].
Qed.

(** X2. [Put] always leaves a [Padding] between 0 and 3 that brings the
    length of the value to a multiple of 4, and [Bytes] keeps such a
    padding, or computes it when the field is zero: a value handled
    through [Put] and [Bytes] alone never carries a stale padding. *)
Theorem OctetString_padding_invariant (os : OctetString.t) :
  (forall b, OctetString.padding_consistent (OctetString.Put os b)) /\
  (OctetString.Padding os = 0 \/ OctetString.padding_consistent os ->
   OctetString.padding_consistent (snd (OctetString.Bytes os))).
Proof.
  split.
  - apply Put_padding_consistent.
  - apply updatePadding_consistent.
Qed.

Lemma OctetString_padding_invariant_witness :
  let os := OctetString.mk [Byte.x61; Byte.x62] 0 in
  (OctetString.Padding os = 0 \/ OctetString.padding_consistent os) /\
  OctetString.padding_consistent (snd (OctetString.Bytes os)).
Proof.
  cbn zeta.
  assert (H : OctetString.Padding (OctetString.mk [Byte.x61; Byte.x62] 0) = 0 \/
              OctetString.padding_consistent (OctetString.mk [Byte.x61; Byte.x62] 0)).
  { left. reflexivity. }
  split; [exact H|].
  exact (proj2 (OctetString_padding_invariant _) H).
Defined.

Lemma Put_wire_padding (os : OctetString.t) (b : list byte) :
  len b < 2 ^ 32 ->
  OctetString.Padding (snd (OctetString.Bytes (OctetString.Put os b)))
  = pad4 (len b) - len b.
Proof.
  intros Hb. pose proof (len_nonneg b) as Hl.
  unfold OctetString.Bytes, OctetString.Put, OctetString.updatePadding.
  cbn [snd OctetString.Padding OctetString.Value].
  rewrite (uint32_small (len b)) by lia.
  rewrite pad4_gap_uint32.
  destruct (pad4 (len b) - len b =? 0); reflexivity.
Qed.

(** X3. Decoding [b] and encoding again gives [b] followed by zero
    octets up to the next multiple of 4: the result has [pad4 (len b)]
    octets and starts with [b]. *)
Theorem OctetString_Bytes_after_Put (os : OctetString.t) (b : list byte) :
  len b + 3 < 2 ^ 32 ->
  let w := fst (OctetString.Bytes (OctetString.Put os b)) in
  w = b ++ repeat Byte.x00 (Z.to_nat (pad4 (len b) - len b)) /\
  len w = pad4 (len b) /\
  len w mod 4 = 0 /\
  firstn (length b) w = b.
Proof.
  intros Hb. cbn zeta.
  pose proof (len_nonneg b) as Hl.
  pose proof (pad4_gap (len b)) as Hg.
  pose proof (Put_wire_padding os b ltac:(lia)) as Hp.
  pose proof (Put_padding_consistent os b) as [Hc _].
  assert (Hw : fst (OctetString.Bytes (OctetString.Put os b))
               = b ++ repeat Byte.x00 (Z.to_nat (pad4 (len b) - len b))).
  { rewrite <- Hp.
    apply (OctetString_Bytes_shape (OctetString.Put os b)).
    - exact (proj1 Hc).
    - rewrite Hp. cbn [OctetString.Put OctetString.Value]. lia. }
  rewrite Hw.
  assert (Hlen : len (b ++ repeat Byte.x00 (Z.to_nat (pad4 (len b) - len b)))
                 = pad4 (len b)).
  { unfold len in *. rewrite length_app, repeat_length, Nat2Z.inj_add.
    rewrite Z2Nat.id by lia. lia. }
  repeat split.
  - exact Hlen.
  - rewrite Hlen. apply pad4_mod4.
  - rewrite firstn_app, Nat.sub_diag, firstn_all. cbn [firstn].
    apply app_nil_r.
Qed.

Lemma OctetString_Bytes_after_Put_witness :
  let b := [Byte.x61; Byte.x62; Byte.x63; Byte.x64; Byte.x65] in
  len b + 3 < 2 ^ 32 /\
  fst (OctetString.Bytes (OctetString.Put OctetString.zero b))
  = b ++ [Byte.x00; Byte.x00; Byte.x00].
Proof.
  cbn zeta.
  assert (H : len [Byte.x61; Byte.x62; Byte.x63; Byte.x64; Byte.x65] + 3
              < 2 ^ 32) by (vm_compute; reflexivity).
  split; [exact H|].
  exact (proj1 (OctetString_Bytes_after_Put OctetString.zero _ H)).
Defined.

(** X4. On a value built with a zero [Padding] field, [Length] is the
    octet count of [Value]; once [Bytes] has been called on it, [Length]
    is that count only if it is a multiple of 4, since [Bytes] stores the
    padding that [Length] subtracts. *)
Theorem OctetString_Length_across_Bytes (v : list byte) :
  len v < 2 ^ 32 ->
  OctetString.Length (OctetString.mk v 0) = len v /\
  (OctetString.Length (snd (OctetString.Bytes (OctetString.mk v 0))) = len v
   <-> len v mod 4 = 0).
Proof.
  intros Hv. pose proof (len_nonneg v) as Hl. split.
  - unfold OctetString.Length. cbn [OctetString.Value OctetString.Padding].
    rewrite Z.sub_0_r, uint32_idem. apply uint32_small. lia.
  - change (snd (OctetString.Bytes (OctetString.mk v 0)))
      with (OctetString.Put OctetString.zero v).
    apply OctetString_Length_after_Put_iff, Hv.
Qed.

Lemma OctetString_Length_across_Bytes_witness :
  len [Byte.x61] < 2 ^ 32 /\
  OctetString.Length (OctetString.mk [Byte.x61] 0) = 1 /\
  OctetString.Length (snd (OctetString.Bytes (OctetString.mk [Byte.x61] 0)))
  <> 1.
Proof.
  assert (H : len [Byte.x61] < 2 ^ 32) by (vm_compute; reflexivity).
  split; [exact H|].
  destruct (OctetString_Length_across_Bytes [Byte.x61] H) as [H1 H2].
  split; [exact H1|].
  intros E. apply H2 in E. vm_compute in E. discriminate.
Defined.

(** *** Big-endian words, from octets to number and back *)

Lemma of_Z_wrap_eq (x : Z) (b : byte) :
  byte.wrap x = byte.unsigned b -> byte.of_Z x = b.
Proof.
  intros H. apply byte.unsigned_inj.
  rewrite byte.unsigned_of_Z. exact H.
Qed.

Lemma PutUint32_Uint32 (b0 b1 b2 b3 : byte) :
  binary.PutUint32 (binary.Uint32 [b0; b1; b2; b3]) = [b0; b1; b2; b3].
Proof.
  unfold binary.PutUint32, binary.Uint32. cbn [nth].
  repeat f_equal; apply of_Z_wrap_eq;
    rewrite <- (byte.wrap_unsigned b0), <- (byte.wrap_unsigned b1),
            <- (byte.wrap_unsigned b2), <- (byte.wrap_unsigned b3);
    generalize (byte.unsigned b0) (byte.unsigned b1)
               (byte.unsigned b2) (byte.unsigned b3);
    intros z0 z1 z2 z3;
    unfold byte.wrap; rewrite <- !Z.land_ones by lia; Z.bitblast.
Qed.

Lemma Uint32_range (b0 b1 b2 b3 : byte) :
  0 <= binary.Uint32 [b0; b1; b2; b3] < 2 ^ 32.
Proof.
  rewrite <- (PutUint32_Uint32 b0 b1 b2 b3) at 1 2.
  rewrite Uint32_PutUint32. apply uint32_range.
Qed.

Lemma of_Z_congr (x y : Z) :
  byte.wrap x = byte.wrap y -> byte.of_Z x = byte.of_Z y.
Proof.
  intros H. apply of_Z_wrap_eq. rewrite byte.unsigned_of_Z. exact H.
Qed.

Lemma uint32_congr_PutUint32 (x y : Z) :
  uint32 x = uint32 y -> binary.PutUint32 x = binary.PutUint32 y.
Proof.
  intros H.
  assert (E : forall k, 0 <= k ->
                byte.of_Z (Z.shiftr x k) = byte.of_Z (Z.shiftr y k) \/ 24 < k).
  { intros k Hk. destruct (Z_le_gt_dec k 24) as [Hle|Hgt]; [left|right; lia].
    apply of_Z_congr. unfold byte.wrap, uint32 in *.
    rewrite <- !Z.land_ones in * by lia.
    apply Z.bits_inj'. intros i Hi.
    apply (f_equal (fun z => Z.testbit z (i + k))) in H.
    rewrite !Z.land_spec, !Z.shiftr_spec by lia.
    rewrite !Z.land_spec in H.
    rewrite !Z.testbit_ones_nonneg in * by lia.
    destruct (Z.ltb_spec i 8); [|rewrite !andb_false_r; reflexivity].
    destruct (Z.ltb_spec (i + k) 32); [|lia].
    rewrite !andb_true_r in *. exact H. }
  unfold binary.PutUint32.
  destruct (E 24 ltac:(lia)) as [E24|]; [|lia].
  destruct (E 16 ltac:(lia)) as [E16|]; [|lia].
  destruct (E 8 ltac:(lia)) as [E8|]; [|lia].
  destruct (E 0 ltac:(lia)) as [E0|]; [|lia].
  rewrite !Z.shiftr_0_r in E0.
  rewrite E24, E16, E8, E0. reflexivity.
Qed.

Lemma PutUint32_uint32 (v : Z) :
  binary.PutUint32 (uint32 v) = binary.PutUint32 v.
Proof. apply uint32_congr_PutUint32, uint32_idem. Qed.

Lemma PutUint32_halves (h l : Z) :
  0 <= h < 2 ^ 32 -> 0 <= l < 2 ^ 32 ->
  binary.PutUint32 (Z.shiftr (Z.lor l (Z.shiftl h 32)) 32)
  ++ binary.PutUint32 (Z.lor l (Z.shiftl h 32))
  = binary.PutUint32 h ++ binary.PutUint32 l.
Proof.
  intros Hh Hl.
  f_equal; apply uint32_congr_PutUint32.
  - rewrite <- (uint32_small l Hl). unfold uint32.
    rewrite <- !Z.land_ones by lia. Z.bitblast.
  - unfold uint32. rewrite <- !Z.land_ones by lia. Z.bitblast.
    rewrite (Z.testbit_neg_r h) by lia. rewrite orb_false_r. reflexivity.
Qed.

Lemma PutUint64_Uint64 (b0 b1 b2 b3 b4 b5 b6 b7 : byte) :
  binary.PutUint64 (binary.Uint64 [b0; b1; b2; b3; b4; b5; b6; b7])
  = [b0; b1; b2; b3; b4; b5; b6; b7].
Proof.
  rewrite PutUint64_halves, Uint64_halves.
  rewrite PutUint32_halves by apply Uint32_range.
  rewrite !PutUint32_Uint32. reflexivity.
Qed.

(** *** Numeric codecs, from the wire and back *)

Lemma uint32_int32 (x : Z) : uint32 (int32 x) = uint32 x.
Proof.
  unfold int32.
  destruct (uint32 x <? 2 ^ 31); [apply uint32_idem|].
  unfold uint32. change (2 ^ 32) with 4294967296.
  Z.div_mod_to_equations. lia.
Qed.

Lemma uint64_int64 (x : Z) : uint64 (int64 x) = uint64 x.
Proof.
  unfold int64.
  destruct (uint64 x <? 2 ^ 63); [apply uint64_idem|].
  unfold uint64. change (2 ^ 64) with 18446744073709551616.
  Z.div_mod_to_equations. lia.
Qed.

Lemma int32_range (x : Z) : - 2 ^ 31 <= int32 x < 2 ^ 31.
Proof.
  unfold int32. pose proof (uint32_range x) as H.
  destruct (Z.ltb_spec (uint32 x) (2 ^ 31)); lia.
Qed.

Lemma int64_range (x : Z) : - 2 ^ 63 <= int64 x < 2 ^ 63.
Proof.
  unfold int64.
  assert (H : 0 <= uint64 x < 2 ^ 64)
    by (unfold uint64; apply Z.mod_pos_bound; reflexivity).
  destruct (Z.ltb_spec (uint64 x) (2 ^ 63)); lia.
Qed.

Lemma uint64_congr_PutUint64 (x : Z) :
  binary.PutUint64 (uint64 x) = binary.PutUint64 x.
Proof.
  rewrite !PutUint64_halves. f_equal; apply uint32_congr_PutUint32;
    unfold uint32, uint64; rewrite <- !Z.land_ones by lia; Z.bitblast.
Qed.

Lemma encode_decode (k : Numeric.kind) (b : list byte) :
  length b = Numeric.size k -> Numeric.encode k (Numeric.decode k b) = b.
Proof.
  intros Hb.
  destruct k; cbn [Numeric.size] in Hb;
    cbn [Numeric.encode Numeric.decode];
    unfold math.Float32bits, math.Float32frombits,
           math.Float64bits, math.Float64frombits;
    rewrite ?uint32_int32, ?uint64_int64, ?uint32_idem, ?uint64_idem,
            ?PutUint32_uint32, ?uint64_congr_PutUint64.
  1, 3, 5:
    destruct b as [|b0 [|b1 [|b2 [|b3 [|? ?]]]]]; try discriminate Hb;
    apply PutUint32_Uint32.
  all:
    destruct b as [|b0 [|b1 [|b2 [|b3 [|b4 [|b5 [|b6 [|b7 [|? ?]]]]]]]]];
    try discriminate Hb;
    apply PutUint64_Uint64.
Qed.

Lemma ReadFull_some (n : nat) (buf bs : list byte) :
  binary.ReadFull n buf = Some bs ->
  (n <= length buf)%nat /\ bs = firstn n buf /\ length bs = n.
Proof.
  unfold binary.ReadFull.
  destruct (Nat.ltb_spec (length buf) n); [discriminate|].
  intros [= <-]. rewrite length_firstn. repeat split; lia.
Qed.

Lemma ReadFull_short (n : nat) (buf : list byte) :
  (length buf < n)%nat -> binary.ReadFull n buf = None.
Proof.
  intros H. unfold binary.ReadFull.
  destruct (Nat.ltb_spec (length buf) n); [reflexivity|lia].
Qed.

Lemma ReadFull_prefix (n : nat) (b rest : list byte) :
  length b = n -> binary.ReadFull n (b ++ rest) = Some b.
Proof.
  intros H. unfold binary.ReadFull. rewrite length_app.
  destruct (Nat.ltb_spec (length b + length rest) n); [lia|].
  rewrite firstn_app, firstn_all2 by lia.
  replace (n - length b)%nat with 0%nat by lia.
  cbn [firstn]. rewrite app_nil_r. reflexivity.
Qed.

(** X5. For each numeric type, decoding exactly as many octets as the
    type is wide and encoding again gives back the same octets, and they
    are what the cache holds. *)
Theorem numeric_encode_decode (k : Numeric.kind) (n : Numeric.t)
                              (b : list byte) :
  length b = Numeric.size k ->
  fst (Numeric.Bytes k (Numeric.Put k n (Some b))) = b /\
  Numeric.Buffer (Numeric.Put k n (Some b)) = Some b.
Proof.
  intros Hb. split; [|apply Put_Buffer].
  unfold Numeric.Bytes, Numeric.Put.
  cbn [fst Numeric.Buffer Numeric.Value Numeric.octets].
  rewrite ReadFull_exact by exact Hb.
  cbn [Numeric.Value]. apply encode_decode, Hb.
Qed.

Lemma numeric_encode_decode_witness :
  let b := [Byte.x80; Byte.x00; Byte.x00; Byte.x00;
            Byte.x00; Byte.x00; Byte.x00; Byte.x01] in
  length b = Numeric.size Numeric.KInteger64 /\
  fst (Integer64.Bytes (Integer64.Put Numeric.zero (Some b))) = b.
Proof.
  cbn zeta.
  assert (H : length [Byte.x80; Byte.x00; Byte.x00; Byte.x00;
                      Byte.x00; Byte.x00; Byte.x00; Byte.x01]
              = Numeric.size Numeric.KInteger64) by reflexivity.
  split; [exact H|].
  exact (proj1 (numeric_encode_decode Numeric.KInteger64 Numeric.zero _ H)).
Defined.

(** X6. [Put] of fewer octets than the type is wide, [nil] included,
    keeps the previous [Value] and still replaces the cache by its
    argument; a following [Bytes] encodes the previous value. *)
Theorem numeric_Put_short (k : Numeric.kind) (n : Numeric.t)
                          (d : option (list byte)) :
  (length (Numeric.octets d) < Numeric.size k)%nat ->
  Numeric.Value (Numeric.Put k n d) = Numeric.Value n /\
  Numeric.Buffer (Numeric.Put k n d) = d /\
  fst (Numeric.Bytes k (Numeric.Put k n d)) = fst (Numeric.Bytes k n).
Proof.
  intros Hd.
  assert (E : Numeric.Put k n d = Numeric.mk (Numeric.Value n) d).
  { unfold Numeric.Put. cbn [Numeric.Buffer Numeric.Value].
    rewrite ReadFull_short by exact Hd. reflexivity. }
  rewrite E. repeat split.
Qed.

Lemma numeric_Put_short_witness :
  let n := Numeric.mk 42 None in
  let d := Some [Byte.x01; Byte.x02; Byte.x03] in
  (length (Numeric.octets d) < Numeric.size Numeric.KUnsigned32)%nat /\
  Numeric.Value (Unsigned32.Put n d) = 42 /\
  fst (Unsigned32.Bytes (Unsigned32.Put n d))
  = [Byte.x00; Byte.x00; Byte.x00; Byte.x2a].
Proof.
  cbn zeta.
  assert (H : (length (Numeric.octets (Some [Byte.x01; Byte.x02; Byte.x03]))
               < Numeric.size Numeric.KUnsigned32)%nat) by (cbn; lia).
  split; [exact H|].
  destruct (numeric_Put_short Numeric.KUnsigned32 (Numeric.mk 42 None) _ H)
    as (Hv & _ & Hb).
  split; [exact Hv | exact Hb].
Defined.

(** X7. [Put] of more octets than the type is wide decodes the leading
    ones and ignores the rest for [Value], while the cache, and with it
    [Length], keeps all of them. *)
Theorem numeric_Put_long (k : Numeric.kind) (n : Numeric.t)
                         (b rest : list byte) :
  length b = Numeric.size k ->
  Numeric.Value (Numeric.Put k n (Some (b ++ rest)))
  = Numeric.Value (Numeric.Put k n (Some b)) /\
  fst (Numeric.Length k (Numeric.Put k n (Some (b ++ rest))))
  = uint32 (len b + len rest).
Proof.
  intros Hb. split.
  - unfold Numeric.Put. cbn [Numeric.Buffer Numeric.Value Numeric.octets].
    rewrite ReadFull_prefix by exact Hb.
    rewrite ReadFull_exact by exact Hb. reflexivity.
  - unfold Numeric.Length. rewrite Put_Buffer. cbn [fst].
    rewrite Put_Buffer. cbn [Numeric.octets]. unfold len.
    rewrite length_app, Nat2Z.inj_add. reflexivity.
Qed.

Lemma numeric_Put_long_witness :
  let b := [Byte.x00; Byte.x00; Byte.x00; Byte.x07] in
  length b = Numeric.size Numeric.KInteger32 /\
  Numeric.Value (Integer32.Put Numeric.zero (Some (b ++ [Byte.xff]))) = 7 /\
  fst (Integer32.Length (Integer32.Put Numeric.zero (Some (b ++ [Byte.xff]))))
  = 5.
Proof.
  cbn zeta.
  assert (H : length [Byte.x00; Byte.x00; Byte.x00; Byte.x07]
              = Numeric.size Numeric.KInteger32) by reflexivity.
  split; [exact H|].
  destruct (numeric_Put_long Numeric.KInteger32 Numeric.zero _ [Byte.xff] H)
    as (Hv & Hl).
  split; [exact Hv | exact Hl].
Defined.

Lemma Uint64_range (b0 b1 b2 b3 b4 b5 b6 b7 : byte) :
  0 <= binary.Uint64 [b0; b1; b2; b3; b4; b5; b6; b7] < 2 ^ 64.
Proof.
  rewrite <- (PutUint64_Uint64 b0 b1 b2 b3 b4 b5 b6 b7) at 1 2.
  rewrite Uint64_PutUint64. unfold uint64.
  apply Z.mod_pos_bound. reflexivity.
Qed.

Lemma decode_representable (k : Numeric.kind) (b : list byte) :
  length b = Numeric.size k ->
  Numeric.representable k (Numeric.decode k b).
Proof.
  intros Hb.
  destruct k; cbn [Numeric.size] in Hb;
    cbn [Numeric.representable Numeric.decode];
    unfold math.Float32frombits, math.Float64frombits.
  - apply int32_range.
  - apply int64_range.
  - destruct b as [|b0 [|b1 [|b2 [|b3 [|? ?]]]]]; try discriminate Hb.
    apply Uint32_range.
  - destruct b as [|b0 [|b1 [|b2 [|b3 [|b4 [|b5 [|b6 [|b7 [|? ?]]]]]]]]];
      try discriminate Hb.
    apply Uint64_range.
  - apply uint32_range.
  - unfold uint64. apply Z.mod_pos_bound. reflexivity.
Qed.

Lemma Put_Value (k : Numeric.kind) (n : Numeric.t) (d : option (list byte)) :
  Numeric.Value (Numeric.Put k n d) = Numeric.Value n \/
  exists bs, length bs = Numeric.size k /\
             Numeric.Value (Numeric.Put k n d) = Numeric.decode k bs.
Proof.
  unfold Numeric.Put. cbn [Numeric.Buffer Numeric.Value].
  destruct (binary.ReadFull (Numeric.size k) (Numeric.octets d)) as [bs|] eqn:E.
  - right. exists bs. apply ReadFull_some in E. split; [apply E|reflexivity].
  - left. reflexivity.
Qed.

Lemma step_representable (k : Numeric.kind) (n : Numeric.t) (o : Numeric.op) :
  Numeric.representable k (Numeric.Value n) ->
  Numeric.representable k (Numeric.Value (Numeric.step k n o)).
Proof.
  intros Hn. destruct o as [d| |]; cbn [Numeric.step].
  - destruct (Put_Value k n d) as [E|(bs & Hb & E)]; rewrite E.
    + exact Hn.
    + apply decode_representable, Hb.
  - exact Hn.
  - unfold Numeric.Length. destruct (Numeric.Buffer n); exact Hn.
Qed.

(** X8. Whatever octets are given to [Put], in whatever number, the
    [Value] of a numeric type stays within the range of its Go type
    through any sequence of [Put], [Bytes] and [Length] calls. *)
Theorem numeric_Value_representable (k : Numeric.kind)
                                    (ops : list Numeric.op) (n : Numeric.t) :
  Numeric.representable k (Numeric.Value n) ->
  Numeric.representable k (Numeric.Value (Numeric.run k ops n)).
Proof.
  unfold Numeric.run. revert n.
  induction ops as [|o ops IH]; intros n Hn; cbn [fold_left].
  - exact Hn.
  - apply IH, step_representable, Hn.
Qed.

Lemma numeric_Value_representable_witness :
  let ops := [Numeric.OpPut (Some [Byte.xff; Byte.xff; Byte.xff; Byte.xff;
                                   Byte.x01]);
              Numeric.OpBytes; Numeric.OpPut (Some [Byte.x01])] in
  Numeric.representable Numeric.KInteger32 (Numeric.Value Numeric.zero) /\
  Numeric.representable Numeric.KInteger32
    (Numeric.Value (Numeric.run Numeric.KInteger32 ops Numeric.zero)).
Proof.
  cbn zeta.
  assert (H : Numeric.representable Numeric.KInteger32
                (Numeric.Value Numeric.zero)) by (cbn; lia).
  split; [exact H|].
  exact (numeric_Value_representable Numeric.KInteger32 _ Numeric.zero H).
Defined.

Lemma step_cache_coherent (k : Numeric.kind) (n : Numeric.t) (o : Numeric.op) :
  Numeric.exact_width k o -> Numeric.cache_coherent k n ->
  Numeric.cache_coherent k (Numeric.step k n o).
Proof.
  destruct o as [[b|]| |]; cbn [Numeric.step Numeric.exact_width];
    intros Hw Hn.
  - unfold Numeric.cache_coherent, Numeric.Put.
    cbn [Numeric.Buffer Numeric.Value Numeric.octets].
    rewrite ReadFull_exact by exact Hw.
    cbn [Numeric.Buffer Numeric.Value].
    symmetry. apply encode_decode, Hw.
  - unfold Numeric.cache_coherent. rewrite Put_Buffer. exact I.
  - reflexivity.
  - unfold Numeric.Length. destruct n as [v [b|]]; cbn [Numeric.Buffer snd].
    + exact Hn.
    + reflexivity.
Qed.

(** X9. On a value whose [Buffer] is [nil], as in a fresh value, or
    the encoding of its [Value], and as long as every [Put] receives
    [nil] or exactly as many octets as the type is wide, the cached
    octets, when present, remain the encoding of the current [Value]:
    [Length] and [Bytes] then agree. *)
Theorem numeric_cache_coherent (k : Numeric.kind) (ops : list Numeric.op)
                               (n : Numeric.t) :
  Numeric.cache_coherent k n ->
  Forall (Numeric.exact_width k) ops ->
  let s := Numeric.run k ops n in
  Numeric.cache_coherent k s /\
  fst (Numeric.Length k s) = len (fst (Numeric.Bytes k s)).
Proof.
  intros Hn Hops. cbn zeta.
  assert (Hs : Numeric.cache_coherent k (Numeric.run k ops n)).
  { unfold Numeric.run. revert n Hn.
    induction Hops as [|o ops Ho _ IH]; intros n Hn; cbn [fold_left].
    - exact Hn.
    - apply IH, step_cache_coherent; assumption. }
  split; [exact Hs|].
  unfold Numeric.cache_coherent in Hs.
  unfold Numeric.Length, Numeric.Bytes.
  destruct (Numeric.Buffer (Numeric.run k ops n)) as [b|] eqn:E;
    cbn [fst snd Numeric.Buffer Numeric.octets Numeric.Value].
  - rewrite E. cbn [Numeric.octets]. rewrite Hs. unfold len.
    rewrite encode_length. apply uint32_size.
  - unfold len. rewrite encode_length. apply uint32_size.
Qed.

Lemma numeric_cache_coherent_witness :
  let ops := [Numeric.OpPut (Some [Byte.x3f; Byte.x80; Byte.x00; Byte.x00]);
              Numeric.OpLength] in
  Numeric.cache_coherent Numeric.KFloat32 Numeric.zero /\
  Forall (Numeric.exact_width Numeric.KFloat32) ops /\
  Numeric.cache_coherent Numeric.KFloat32
    (Numeric.run Numeric.KFloat32 ops Numeric.zero).
Proof.
  cbn zeta.
  assert (H0 : Numeric.cache_coherent Numeric.KFloat32 Numeric.zero)
    by exact I.
  assert (H1 : Forall (Numeric.exact_width Numeric.KFloat32)
                 [Numeric.OpPut (Some [Byte.x3f; Byte.x80; Byte.x00; Byte.x00]);
                  Numeric.OpLength]).
  { repeat constructor. }
  split; [exact H0|]. split; [exact H1|].
  exact (proj1 (numeric_cache_coherent Numeric.KFloat32 _ Numeric.zero H0 H1)).
Defined.

(** *** Time *)

Lemma Time_Bytes_length (x : Time.t) : length (Time.Bytes x) = 4%nat.
Proof. reflexivity. Qed.

Lemma Unix_whole (s : Z) : time.Unix s 0 = time.mkTime s 0.
Proof. unfold time.Unix. cbn. rewrite Z.add_0_r. reflexivity. Qed.

(** X10. Decoding the encoding of a [Time] gives the time whose Unix
    seconds are those of the original modulo [2^32], with no fraction of
    a second: the round trip is exact for whole-second times from 1970 up
    to [2^32] seconds later, truncated otherwise. *)
Theorem Time_decode_encode (x y : Time.t) :
  Time.Value (Time.Put y (Time.Bytes x))
  = time.mkTime (uint32 (time.Time_Unix (Time.Value x))) 0 /\
  (0 <= time.Time_Unix (Time.Value x) < 2 ^ 32 ->
   time.nsec (Time.Value x) = 0 ->
   Time.Put y (Time.Bytes x) = x).
Proof.
  assert (E : Time.Put y (Time.Bytes x)
              = Time.mk (time.mkTime (uint32 (time.Time_Unix (Time.Value x))) 0)).
  { unfold Time.Put. unfold len. rewrite Time_Bytes_length.
    cbn [Z.of_nat Z.eqb Pos.of_succ_nat Pos.succ Pos.eqb].
    unfold Time.Bytes. rewrite Uint32_PutUint32, uint32_idem, Unix_whole.
    reflexivity. }
  rewrite E. split; [reflexivity|].
  intros Hs Hn. rewrite uint32_small by exact Hs.
  destruct x as [[s ns]]. cbn in Hn |- *. rewrite Hn. reflexivity.
Qed.

Lemma Time_decode_encode_witness :
  let x := Time.mk (time.mkTime 1700000000 0) in
  0 <= time.Time_Unix (Time.Value x) < 2 ^ 32 /\
  time.nsec (Time.Value x) = 0 /\
  Time.Put (Time.mk (time.mkTime 0 0)) (Time.Bytes x) = x.
Proof.
  cbn zeta.
  assert (H : 0 <= time.Time_Unix
                     (Time.Value (Time.mk (time.mkTime 1700000000 0)))
              < 2 ^ 32) by (cbn; lia).
  split; [exact H|]. split; [reflexivity|].
  exact (proj2 (Time_decode_encode _ (Time.mk (time.mkTime 0 0))) H eq_refl).
Defined.

(** X11. [Time.Put] of exactly four octets followed by [Bytes] gives the
    same four octets back, and [Length] is their number; [Put] of any
    other number of octets leaves the value as it was. *)
Theorem Time_encode_decode (x : Time.t) (b : list byte) :
  (length b = 4%nat ->
   Time.Bytes (Time.Put x b) = b /\ Time.Length (Time.Put x b) = len b) /\
  (length b <> 4%nat -> Time.Put x b = x).
Proof.
  split.
  - intros Hb.
    destruct b as [|b0 [|b1 [|b2 [|b3 [|? ?]]]]]; try discriminate Hb.
    split; [|reflexivity].
    unfold Time.Put. cbn [len length Z.of_nat Z.eqb Pos.of_succ_nat Pos.succ Pos.eqb].
    unfold Time.Bytes. cbn [Time.Value]. rewrite Unix_whole.
    cbn [time.Time_Unix time.sec].
    rewrite PutUint32_uint32. apply PutUint32_Uint32.
  - intros Hb. unfold Time.Put.
    destruct (Z.eqb_spec (len b) 4) as [E|E]; [|reflexivity].
    unfold len in E. lia.
Qed.

Lemma Time_encode_decode_witness :
  let b := [Byte.x65; Byte.x53; Byte.xf1; Byte.x00] in
  length b = 4%nat /\
  Time.Bytes (Time.Put (Time.mk (time.mkTime 0 0)) b) = b.
Proof.
  cbn zeta.
  assert (H : length [Byte.x65; Byte.x53; Byte.xf1; Byte.x00] = 4%nat)
    by reflexivity.
  split; [exact H|].
  exact (proj1 (proj1 (Time_encode_decode (Time.mk (time.mkTime 0 0)) _) H)).
Defined.

(** *** Address and IPv4 on the wire *)

Lemma To4_IPv4 (a b c d : byte) :
  net.To4 (net.IPv4 a b c d) = Some [a; b; c; d].
Proof. reflexivity. Qed.

Lemma To4_length (ip : net.IP) (l : list byte) :
  net.To4 ip = Some l -> length l = 4%nat.
Proof.
  destruct ip as [l0|]; [|discriminate]. unfold net.To4.
  destruct (Nat.eqb_spec (length l0) 4) as [E4|E4].
  - intros [= <-]. exact E4.
  - destruct (Nat.eqb_spec (length l0) 16) as [E16|E16];
      cbn [andb]; [|discriminate].
    destruct (_ && _ && _); [|discriminate].
    intros H.
    assert (Hl : l = firstn 4 (skipn 12 l0)) by (symmetry; congruence).
    rewrite Hl, length_firstn, length_skipn. lia.
Qed.

Lemma firstn_six (b : list byte) :
  6 <= len b ->
  firstn 6 b = [ nth 0 b Byte.x00; nth 1 b Byte.x00; nth 2 b Byte.x00;
                 nth 3 b Byte.x00; nth 4 b Byte.x00; nth 5 b Byte.x00 ].
Proof.
  unfold len. intros H.
  destruct b as [|b0 [|b1 [|b2 [|b3 [|b4 [|b5 rest]]]]]];
    cbn [length] in H; try lia.
  reflexivity.
Qed.

(** X12. After [Put] has accepted [b], [Bytes] returns the first six
    octets of [b] followed by two zero octets and leaves the value as it
    is, [Length] is 6, and decoding those eight octets into any value
    gives the same [Address] again. *)
Theorem Address_Bytes_after_Put (addr other : Address.t) (b : list byte) :
  Address.accepts b = true ->
  let w := firstn 6 b ++ [Byte.x00; Byte.x00] in
  Address.Bytes (Address.Put addr b) = Some (w, Address.Put addr b) /\
  Address.Length (Address.Put addr b) = 6 /\
  Address.Put other w = Address.Put addr b.
Proof.
  intros Hb. cbn zeta.
  pose proof (proj1 (accepts_spec b) Hb) as [Hl Hf].
  rewrite (Put_accepted addr b Hb).
  rewrite (firstn_six b Hl).
  split; [reflexivity|]. split; [reflexivity|].
  unfold Address.Put, Address.accepts.
  cbn [len length app nth Z.of_nat]. rewrite Hf. reflexivity.
Qed.

Lemma Address_Bytes_after_Put_witness :
  let b := [Byte.x00; Byte.x01; Byte.xc0; Byte.x00; Byte.x02; Byte.x01] in
  Address.accepts b = true /\
  Address.Bytes (Address.Put Address.zero b)
  = Some (b ++ [Byte.x00; Byte.x00], Address.Put Address.zero b).
Proof.
  cbn zeta.
  assert (H : Address.accepts
                [Byte.x00; Byte.x01; Byte.xc0; Byte.x00; Byte.x02; Byte.x01]
              = true) by reflexivity.
  split; [exact H|].
  exact (proj1 (Address_Bytes_after_Put Address.zero Address.zero _ H)).
Defined.

(** X13. An [Address] with no family and an IPv4 address, in its 4-octet
    or its 16-octet form, is encoded with family [{0, 1}], which [Bytes]
    also stores in the value together with a padding of 2; its [Length]
    is 6. *)
Theorem Address_Bytes_default_family (p : Z) (a b c d : byte) (ip : net.IP) :
  ip = Some [a; b; c; d] \/ ip = net.IPv4 a b c d ->
  Address.Bytes (Address.mk None ip p)
  = Some ([Byte.x00; Byte.x01; a; b; c; d; Byte.x00; Byte.x00],
          Address.mk (Some [Byte.x00; Byte.x01]) ip 2) /\
  Address.Length (Address.mk None ip p) = 6.
Proof. intros [-> | ->]; split; reflexivity. Qed.

Lemma Address_Bytes_default_family_witness :
  Address.Bytes (Address.mk None (Some [Byte.xc0; Byte.x00; Byte.x02; Byte.x01]) 0)
  = Some ([Byte.x00; Byte.x01; Byte.xc0; Byte.x00; Byte.x02; Byte.x01;
           Byte.x00; Byte.x00],
          Address.mk (Some [Byte.x00; Byte.x01])
                     (Some [Byte.xc0; Byte.x00; Byte.x02; Byte.x01]) 2).
Proof.
  exact (proj1 (Address_Bytes_default_family 0 Byte.xc0 Byte.x00 Byte.x02
                  Byte.x01 _ (or_introl eq_refl))).
Defined.

(** X14. [Address.Bytes] panics exactly when the address is an IPv4
    address and [Family] is a non-nil slice of fewer than two octets; in
    every other state it returns, with no octets when the address is not
    an IPv4 address. *)
Theorem Address_Bytes_panics (addr : Address.t) :
  (Address.Bytes addr = None <->
   net.To4 (Address.IP addr) <> None /\
   exists f, Address.Family addr = Some f /\ (length f < 2)%nat) /\
  (net.To4 (Address.IP addr) = None -> Address.Bytes addr = Some ([], addr)).
Proof.
  destruct addr as [fam ip p]. unfold Address.Bytes.
  cbn [Address.IP Address.Family Address.Padding].
  destruct (net.To4 ip) as [l|] eqn:E.
  - pose proof (To4_length ip l E) as Hl.
    destruct l as [|i0 [|i1 [|i2 [|i3 [|? ?]]]]]; try discriminate Hl.
    split; [|discriminate].
    destruct fam as [[|f0 [|f1 f]]|]; cbn.
    + split; [intros _|reflexivity].
      split; [discriminate|]. exists []. split; [reflexivity|cbn; lia].
    + split; [intros _|reflexivity].
      split; [discriminate|]. exists [f0]. split; [reflexivity|cbn; lia].
    + split; [discriminate|].
      intros (_ & f' & [= <-] & Hf). cbn in Hf. lia.
    + split; [discriminate|].
      intros (_ & f' & Hf' & _). discriminate.
  - split; [|reflexivity].
    split; [discriminate|]. intros [H _]. contradiction.
Qed.

(** X15. [IPv4.Put] of exactly four octets followed by [Bytes] gives the
    same four octets back, with [Length] 4; [Put] of any other number of
    octets leaves the value as it was. *)
Theorem IPv4_encode_decode (addr : IPv4.t) (b : list byte) :
  (length b = 4%nat ->
   IPv4.Bytes (IPv4.Put addr b) = b /\ IPv4.Length (IPv4.Put addr b) = 4) /\
  (length b <> 4%nat -> IPv4.Put addr b = addr).
Proof.
  split.
  - intros Hb.
    destruct b as [|b0 [|b1 [|b2 [|b3 [|? ?]]]]]; try discriminate Hb.
    split; reflexivity.
  - intros Hb. unfold IPv4.Put.
    destruct (Z.eqb_spec (len b) 4) as [E|E]; [|reflexivity].
    unfold len in E. lia.
Qed.

Lemma IPv4_encode_decode_witness :
  let b := [Byte.x0a; Byte.x00; Byte.x00; Byte.x01] in
  length b = 4%nat /\ IPv4.Bytes (IPv4.Put IPv4.zero b) = b.
Proof.
  cbn zeta.
  assert (H : length [Byte.x0a; Byte.x00; Byte.x00; Byte.x01] = 4%nat)
    by reflexivity.
  split; [exact H|].
  exact (proj1 (proj1 (IPv4_encode_decode IPv4.zero _) H)).
Defined.


Lemma Address_Bytes_panics_witness :
  let addr := Address.mk (Some [Byte.x01])
                         (net.IPv4 Byte.xc0 Byte.x00 Byte.x02 Byte.x01) 0 in
  Address.Bytes addr = None /\
  Address.Bytes Address.zero = Some ([], Address.zero).
Proof.
  cbn zeta. split.
  - apply (proj1 (Address_Bytes_panics _)). split; [discriminate|].
    exists [Byte.x01]. split; [reflexivity|cbn; lia].
  - exact (proj2 (Address_Bytes_panics Address.zero) eq_refl).
Defined.

(** *** The watchdog handler, all outcomes *)

Section HandlerOutcomes.

Variables Conn error Datum : Type.
Variables Success OriginHost OriginRealm OriginStateID Mbit : Z.
Variable Unsigned32 : Z -> Datum.
Variable Parse : @sm.Message Datum -> option error.
Variable write_error : Conn -> @sm.Message Datum -> option error.

Local Abbreviation handleDWR :=
  (sm.handleDWR Success OriginHost OriginRealm OriginStateID Mbit
                Unsigned32 Parse write_error).
Local Abbreviation World := (@sm.World Conn error Datum).
Local Abbreviation StateMachine := (@sm.StateMachine Datum).
Local Abbreviation Message := (@sm.Message Datum).
Local Abbreviation answer s m now :=
  (sm.mkMessage false (sm.HopByHopID m) (sm.EndToEndID m) (Some Success)
     [ sm.mkAVP OriginHost Mbit 0 (sm.cfgOriginHost (sm.cfg s));
       sm.mkAVP OriginRealm Mbit 0 (sm.cfgOriginRealm (sm.cfg s));
       sm.mkAVP OriginStateID Mbit 0 (Unsigned32 (uint32 now)) ]).

(** X17. When the request parses and the write of the answer fails, the
    handler has made that one write and then hands exactly one report to
    the error sink, with the connection, the request and the write's
    error; it does not write again. *)
Theorem handleDWR_reports_write_failure
        (s : StateMachine) (c : Conn) (m : Message) (w : World) (err : error) :
  Parse m = None ->
  write_error c (answer s m (sm.clock w)) = Some err ->
  sm.new_events w (snd (handleDWR s c m w))
  = [ sm.EvWrite c (answer s m (sm.clock w));
      sm.EvReport (sm.mkErrorReport c m err) ].
Proof.
  intros Hp Hw.
  rewrite (handleDWR_parsed Conn error Datum Success OriginHost OriginRealm
             OriginStateID Mbit Unsigned32 Parse write_error s c m w Hp).
  rewrite Hw. apply new_events_app.
Qed.

(** X18. Whatever the request and the connection, the handler only adds
    events to the trace and leaves the clock alone; it makes at most one
    write and at most one report, never closes a connection, and reports
    nothing exactly when the request parsed and the write succeeded. *)
Theorem handleDWR_outcomes
        (s : StateMachine) (c : Conn) (m : Message) (w : World) :
  let w' := snd (handleDWR s c m w) in
  let es := sm.new_events w w' in
  sm.trace w' = sm.trace w ++ es /\
  sm.clock w' = sm.clock w /\
  (length (sm.writes es) <= 1)%nat /\
  (length (sm.reports es) <= 1)%nat /\
  sm.closes es = [] /\
  (sm.reports es = [] <->
   Parse m = None /\ write_error c (answer s m (sm.clock w)) = None).
Proof.
  cbn zeta.
  destruct (Parse m) as [e|] eqn:Hp.
  - rewrite (handleDWR_unparsed Conn error Datum Success OriginHost
               OriginRealm OriginStateID Mbit Unsigned32 Parse write_error
               s c m w e Hp).
    rewrite new_events_app. cbn.
    repeat split; try lia; try discriminate.
    intros [H _]. discriminate.
  - rewrite (handleDWR_parsed Conn error Datum Success OriginHost OriginRealm
               OriginStateID Mbit Unsigned32 Parse write_error s c m w Hp).
    rewrite new_events_app. cbn [sm.trace sm.clock].
    destruct (write_error c _) as [e|]; cbn.
    + repeat split; try lia; try discriminate.
      intros [_ H]. discriminate.
    + repeat split; lia.
Qed.

End HandlerOutcomes.

Lemma handleDWR_reports_write_failure_witness :
  let w' := snd (dwr_example.handleDWR_broken dwr_example.local 3%nat
                   dwr_example.request dwr_example.world0) in
  dwr_example.Parse dwr_example.request = None /\
  sm.writes (sm.new_events dwr_example.world0 w')
  = [(3%nat,
      sm.mkMessage false 11 22 (Some 2001)
        [ sm.mkAVP 264 64 0 (inl dwr_example.host_local);
          sm.mkAVP 296 64 0 (inl dwr_example.realm_local);
          sm.mkAVP 278 64 0 (inr 1700000000) ])] /\
  sm.reports (sm.new_events dwr_example.world0 w')
  = [sm.mkErrorReport 3%nat dwr_example.request 32].
Proof.
  cbn zeta.
  assert (Hp : dwr_example.Parse dwr_example.request = None) by reflexivity.
  pose proof (handleDWR_reports_write_failure
                nat Z dwr_example.Datum 2001 264 296 278 64
                (fun v => inr v) dwr_example.Parse dwr_example.broken_pipe
                dwr_example.local 3%nat dwr_example.request
                dwr_example.world0 32 Hp eq_refl) as H.
  split; [exact Hp|].
  unfold dwr_example.handleDWR_broken. rewrite H. split; reflexivity.
Defined.
